(** * A filesystem-backed image store: shallow embedding and properties

    This development embeds [glance/store/_drivers/filesystem.py] (classes
    [StoreLocation], [ChunkedFile] and [Store]) and proves properties of
    its location codec, its metadata loader and its
    configure/add/get/get_size operations.

    Python 2 [str] values used as paths, schemes and URIs are [string];
    image data is [list byte]; Python integers are [Z].  Operations that
    touch the filesystem or the log are written in a state-and-exception
    monad over an explicit [world]. *)

From Stdlib Require Import ZArith Ascii String List Lia Bool.
From stdpp Require Import base strings gmap list.

Local Open Scope string_scope.
Local Open Scope Z_scope.

#[local] Set Warnings "-register-all".

(** ** Exceptions *)

(** The [Exception] subclasses that can reach the handlers of the driver.
    [IOError] and [OSError] are distinct classes in Python 2 and carry an
    optional [errno].  [OtherException] stands for any further subclass of
    [Exception] ([ValueError], [TypeError], ...), named by its class. *)
Inductive exn : Type :=
| IOError (errno : option Z)
| OSError (errno : option Z)
| AssertionError
| OtherException (cls : string)
| BackendException (msg : string)
| BadStoreUri (msg : string)
| BadStoreConfiguration (store_name reason : string)
| NotFound (image : string)
| Duplicate (image : string)
| Forbidden (msg : string)
| StorageFull
| StorageWriteDenied.

(** [errno] constants used by the driver. *)
Module errno.
Definition EACCES : Z := 13.
Definition EFBIG : Z := 27.
Definition ENOSPC : Z := 28.
Definition ENOENT : Z := 2.
Definition EBADF : Z := 9.
Definition EEXIST : Z := 17.
Definition EISDIR : Z := 21.
End errno.

(** ** The log *)

Inductive log_level := DEBUG | INFO | ERROR | EXCEPTION.

Inductive log_arg :=
| AStr (s : string)
| AInt (n : Z)
| AExn (e : exn).

(** One call of [LOG.<level>(template % args)]. *)
Record log_entry := LogEntry {
  level : log_level;
  template : string;
  args : list log_arg
}.

(** ** State-and-exception monad *)

Definition M (S A : Type) : Type := S -> (exn + A) * S.

Definition ret {S A} (a : A) : M S A := fun s => (inr a, s).

Definition raise {S A} (e : exn) : M S A := fun s => (inl e, s).

Definition bind {S A B} (m : M S A) (k : A -> M S B) : M S B :=
  fun s =>
    match m s with
    | (inl e, s') => (inl e, s')
    | (inr a, s') => k a s'
    end.

(** [try: body except e: handler e]. *)
Definition try_except {S A} (body : M S A) (handler : exn -> M S A) : M S A :=
  fun s =>
    match body s with
    | (inl e, s') => handler e s'
    | (inr a, s') => (inr a, s')
    end.

Definition gets {S A} (f : S -> A) : M S A := fun s => (inr (f s), s).

Definition modify {S} (f : S -> S) : M S unit := fun s => (inr tt, f s).

Notation "'let*' x ':=' m 'in' k" := (bind m (fun x => k))
  (at level 10, x pattern, m at level 100, k at level 200).
Notation "m ';;;' k" := (bind m (fun _ => k))
  (at level 100, k at level 200, right associativity).

(** ** Strings *)

Definition ascii_in (c : ascii) (s : string) : bool :=
  existsb (Ascii.eqb c) (list_ascii_of_string s).

(** [c.isspace()] for a byte string in the C locale. *)
Definition isspace (c : ascii) : bool :=
  let n := N_of_ascii c in
  (N.eqb n 32 || (N.leb 9 n && N.leb n 13))%N.

Fixpoint lstrip (s : string) : string :=
  match s with
  | EmptyString => EmptyString
  | String c s' => if isspace c then lstrip s' else s
  end.

Fixpoint rstrip (s : string) : string :=
  match s with
  | EmptyString => EmptyString
  | String c s' =>
      match rstrip s' with
      | EmptyString => if isspace c then EmptyString else String c EmptyString
      | r => String c r
      end
  end.

(** [s.strip()] *)
Definition strip (s : string) : string := rstrip (lstrip s).

Definition str_in (s : string) (l : list string) : bool :=
  existsb (String.eqb s) l.

Definition str_startswith (p s : string) : bool :=
  String.eqb (substring 0 (String.length p) s) p.

(** [s.find(c, start)]: index of the first [c] at or after [start]. *)
Fixpoint find_from (cs : string) (start : nat) (s : string) (i : nat) : option nat :=
  match s with
  | EmptyString => None
  | String c s' =>
      if (start <=? i)%nat && ascii_in c cs then Some i
      else find_from cs start s' (S i)
  end.

Definition str_find (c : ascii) (s : string) : option nat :=
  find_from (String c EmptyString) 0 s 0.

(** [s[i:]] *)
Definition str_from (i : nat) (s : string) : string :=
  substring i (String.length s - i) s.

(** [s[:i]] *)
Definition str_upto (i : nat) (s : string) : string := substring 0 i s.

(** [s.split(c, 1)] when [c] occurs in [s]. *)
Definition split_once (c : ascii) (s : string) : option (string * string) :=
  match str_find c s with
  | Some i => Some (str_upto i s, str_from (S i) s)
  | None => None
  end.

Definition ascii_lower (c : ascii) : ascii :=
  let n := N_of_ascii c in
  if (N.leb 65 n && N.leb n 90)%N then ascii_of_N (n + 32) else c.

Fixpoint str_lower (s : string) : string :=
  match s with
  | EmptyString => EmptyString
  | String c s' => String (ascii_lower c) (str_lower s')
  end.

Definition str_all (f : ascii -> bool) (s : string) : bool :=
  forallb f (list_ascii_of_string s).

(** ** The [urlparse] library function

    [parse_uri] calls the standard library's [urlparse.urlparse], whose
    splitting rules changed between Python releases.  The driver is
    therefore embedded over an arbitrary [urlparse] (a field of [Env]
    below); [urlparse27] follows the CPython 2.7 module and is the
    instance used in the executable examples. *)

Record ParseResult := {
  pr_scheme : string;
  pr_netloc : string;
  pr_path : string;
  pr_params : string;
  pr_query : string;
  pr_fragment : string
}.

Module urlparse27.

Definition scheme_chars : string :=
  "abcdefghijklmnopqrstuvwxyzABCDEFGHIJKLMNOPQRSTUVWXYZ0123456789+-.".

Definition uses_params : list string :=
  ["ftp"; "hdl"; "prospero"; "http"; "imap"; "https"; "shttp"; "rtsp";
   "rtspu"; "sip"; "sips"; "mms"; ""; "sftp"; "tel"].

(** [_splitnetloc(url, 2)] *)
Definition _splitnetloc (url : string) : string * string :=
  let delim :=
    match find_from "/?#" 2 url 0 with
    | Some d => d
    | None => String.length url
    end in
  (substring 2 (delim - 2) url, str_from delim url).

(** The scheme prefix: [url[:i]] is taken as the scheme when [i > 0],
    all its characters are scheme characters and the rest is not a
    port number. *)
Definition split_scheme (url : string) : string * string :=
  match str_find ":" url with
  | Some (S i') =>
      let i := S i' in
      let rest := str_from (S i) url in
      if str_all (fun c => ascii_in c scheme_chars) (str_upto i url)
         && (String.eqb rest "" || negb (str_all (fun c => ascii_in c "0123456789") rest))
      then (str_lower (str_upto i url), rest)
      else ("", url)
  | _ => ("", url)
  end.

Definition urlsplit (url : string) : exn + (string * string * string * string * string) :=
  let '(scheme, url) := split_scheme url in
  let '(netloc, url) :=
    if str_startswith "//" url then _splitnetloc url else ("", url) in
  if (ascii_in "[" netloc && negb (ascii_in "]" netloc))
     || (ascii_in "]" netloc && negb (ascii_in "[" netloc))
  then inl (OtherException "ValueError")
  else
    let '(url, fragment) :=
      match split_once "#" url with Some p => p | None => (url, "") end in
    let '(url, query) :=
      match split_once "?" url with Some p => p | None => (url, "") end in
    inr (scheme, netloc, url, query, fragment).

(** [_splitparams(url)] *)
Definition _splitparams (url : string) : string * string :=
  let start :=
    match find_from "/" 0 (String.rev url) 0 with
    | Some r => String.length url - r
    | None => 0
    end%nat in
  match find_from ";" start url 0 with
  | Some i => (str_upto i url, str_from (S i) url)
  | None => (url, "")
  end.

Definition urlparse (url : string) : exn + ParseResult :=
  match urlsplit url with
  | inl e => inl e
  | inr (scheme, netloc, url, query, fragment) =>
      let '(url, params) :=
        if str_in scheme uses_params && ascii_in ";" url
        then _splitparams url else (url, "") in
      inr {| pr_scheme := scheme; pr_netloc := netloc; pr_path := url;
             pr_params := params; pr_query := query;
             pr_fragment := fragment |}
  end.

End urlparse27.

(** ** The world: filesystem and log *)

Abbreviation bytes := (list Byte.byte).

(** What a path names.  Paths are compared as strings (no normalisation,
    no links); an entry does not need its parent directory to be in the
    map (a missing parent shows as the [errno] of the system call). *)
Inductive node :=
| File (content : bytes)
| Dir.

Record world := World {
  fs : gmap string node;
  log : list log_entry
}.

Definition set_fs (f : gmap string node -> gmap string node) (w : world) : world :=
  {| fs := f (fs w); log := log w |}.

Definition add_log (entry : log_entry) (w : world) : world :=
  {| fs := fs w; log := log w ++ [entry] |}.

Definition LOG {S} (get_w : S -> world) (set_w : world -> S -> S)
    (lvl : log_level) (tmpl : string) (a : list log_arg) : M S unit :=
  modify (fun s => set_w (add_log (LogEntry lvl tmpl a) (get_w s)) s).

(** Logging when the state is the world itself. *)
Definition LOGw : log_level -> string -> list log_arg -> M world unit :=
  LOG (fun w => w) (fun w _ => w).

(** ** JSON values, as produced by [jsonutils.load] *)

Inductive json :=
| JNull
| JBool (b : bool)
| JNum (n : Z)
| JStr (s : string)
| JList (l : list json)
| JDict (items : list (string * json)).

(** ** The environment of the driver

    Everything the driver calls and that lives outside
    [filesystem.py]: library functions, and the operating system's
    verdict on each system call.  A fault function returns the [errno]
    with which the call fails, or [None] when it goes through. *)

(** The proper ancestors of a path, outermost first: what stands before
    each ['/'] of it, the root and empty components apart
    ([/data/a/b] has [/data] and [/data/a]). *)
Fixpoint ancestors_aux (acc : string) (s : string) : list string :=
  match s with
  | EmptyString => []
  | String c s' =>
      (if Ascii.eqb c "/" && negb (String.eqb acc "")
          && negb (str_startswith "/" (String.rev acc))
       then [acc] else [])
      ++ ancestors_aux (acc +:+ String c EmptyString) s'
  end.

Definition ancestors (p : string) : list string := ancestors_aux "" p.

(** [mkdir] on each path of [ps] that names nothing yet. *)
Definition mkdir_all (ps : list string) (m : gmap string node) : gmap string node :=
  foldl (fun m q => match m !! q with
                    | Some _ => m
                    | None => <[q := Dir]> m
                    end) m ps.

Inductive makedirs_result :=
| MkCreated
| MkFailed (errno : option Z) (exists_after : bool).

Record Env := {
  (** [urlparse.urlparse] *)
  urlparse : string -> exn + ParseResult;
  (** [hashlib.md5(data).hexdigest()] *)
  md5_hexdigest : bytes -> string;
  (** [jsonutils.load] on the content of a file *)
  jsonutils_load : bytes -> exn + json;
  (** [glance.store.check_location_metadata]: the exception it raises, if any *)
  check_location_metadata : json -> option exn;
  (** [open(path, 'rb')] and [open(path, 'r')] *)
  open_read_fault : gmap string node -> string -> option Z;
  (** [open(path, 'wb')] *)
  open_write_fault : gmap string node -> string -> option Z;
  (** [f.write(buf)] on the file at [path]: the [errno], and how many
      bytes of [buf] reached the file before the failure *)
  write_fault : gmap string node -> string -> bytes -> option (Z * nat);
  (** [os.unlink(path)] *)
  unlink_fault : gmap string node -> string -> option Z;
  (** [os.makedirs(path)]; on failure, whether the path exists afterwards
      (another process created it in the meantime) *)
  makedirs_outcome : gmap string node -> string -> makedirs_result;
  (** [os.makedirs(path)] that fails: how many of the ancestors of [path],
      outermost first, it went through before it failed *)
  makedirs_progress : gmap string node -> string -> nat;
  (** [st_size] of a directory *)
  dir_size : string -> Z
}.

(** ** [StoreLocation] *)

Record StoreLocation := {
  scheme : string;
  path : option string
}.

(** [self.specs.get('scheme', 'file')], [self.specs.get('path')] *)
Definition process_specs (specs : gmap string string) : StoreLocation :=
  {| scheme := default "file" (specs !! "scheme");
     path := specs !! "path" |}.

(** ["%s" % x] for a path attribute that may be [None]. *)
Definition str_of_path (p : option string) : string := default "None" p.

Definition get_uri (self : StoreLocation) : string :=
  "file://" +:+ str_of_path (path self).

(** ** File-like objects

    A readable stream over [data].  [fault = Some (k, e)] makes the call
    of [read] number [k] (counting from 0) raise [e]. *)
Record filelike := {
  data : bytes;
  fault : option (nat * exn)
}.

(** [fp.read(n)] *)
Definition read (n : nat) : M filelike bytes :=
  fun fp =>
    match fault fp with
    | Some (O, e) => (inl e, fp)
    | Some (S k, e) =>
        (inr (firstn n (data fp)),
         {| data := skipn n (data fp); fault := Some (k, e) |})
    | None =>
        (inr (firstn n (data fp)),
         {| data := skipn n (data fp); fault := None |})
    end.

(** A generator that was run to its end: the chunks it yielded, and the
    exception that ended it, if any. *)
Record generated := {
  yields : list bytes;
  raised : option exn
}.

(** The loop shared by [ChunkedFile.__iter__] and [utils.chunkiter]:
<<
    while True:
        chunk = fp.read(chunk_size)
        if chunk: yield chunk
        else: break
>>
    Every yielded chunk is non-empty, so [S (length (data fp))] rounds
    always reach the [break]. *)
Fixpoint read_chunks (fuel : nat) (chunk_size : nat) (fp : filelike)
  : generated * filelike :=
  match fuel with
  | O => ({| yields := []; raised := None |}, fp)
  | S fuel' =>
      match read chunk_size fp with
      | (inl e, fp') => ({| yields := []; raised := Some e |}, fp')
      | (inr [], fp') => ({| yields := []; raised := None |}, fp')
      | (inr chunk, fp') =>
          let '(g, fp'') := read_chunks fuel' chunk_size fp' in
          ({| yields := chunk :: yields g; raised := raised g |}, fp'')
      end
  end.

(** Modelled from the spec: [glance.store.common.utils.chunkreadable] is
    not part of [filesystem.py]; per the spec, [add] streams the input
    "in fixed-size chunks (64 KiB)", reading until end of stream. *)
Definition chunkreadable (image_file : filelike) (chunk_size : nat) : generated :=
  fst (read_chunks (S (length (data image_file))) chunk_size image_file).

(** ** [ChunkedFile] *)

Definition CHUNKSIZE : nat := Z.to_nat 65536.

Record ChunkedFile := {
  filepath : string;
  fp : option filelike
}.

(** ** [Store] data *)

(** The options of [_FILESYSTEM_CONFIGS]; an unset option is [None]. *)
Record Conf := {
  filesystem_store_datadir : option string;
  filesystem_store_metadata_file : option string
}.

Record Store := {
  conf : Conf;
  datadir : option string
}.

(** [glance.store.location.Location]: only [store_location] is used. *)
Record Location := {
  store_location : StoreLocation
}.

(** An incremental [hashlib.md5] object: the bytes fed to it so far. *)
Record md5 := {
  fed : bytes
}.

Definition hashlib_md5 : md5 := {| fed := [] |}.

Definition md5_update (h : md5) (buf : bytes) : md5 := {| fed := fed h ++ buf |}.

(** The values the driver puts in the tuples it returns. *)
Inductive pyval :=
| VStr (s : string)
| VInt (n : Z)
| VMeta (m : json)
| VChunked (c : ChunkedFile).

Section Driver.

Context (E : Env).

(** *** Operating-system calls *)

Definition os_path_exists (p : string) : M world bool :=
  gets (fun w => match fs w !! p with Some _ => true | None => false end).

Definition os_path_getsize (p : string) : M world Z :=
  fun w =>
    match fs w !! p with
    | Some (File c) => (inr (Z.of_nat (length c)), w)
    | Some Dir => (inr (dir_size E p), w)
    | None => (inl (OSError (Some errno.ENOENT)), w)
    end.

(** [os.unlink(p)].  Where nothing can be unlinked the call fails with
    the [errno] the system reports, [ENOENT] for a missing path and
    [EISDIR] for a directory unless it reports another one ([ENOTDIR],
    [ENAMETOOLONG], [EROFS], [EPERM], ...). *)
Definition os_unlink (p : string) : M world unit :=
  fun w =>
    match fs w !! p with
    | None =>
        (inl (OSError (Some (default errno.ENOENT (unlink_fault E (fs w) p)))), w)
    | Some Dir =>
        (inl (OSError (Some (default errno.EISDIR (unlink_fault E (fs w) p)))), w)
    | Some (File _) =>
        match unlink_fault E (fs w) p with
        | Some en => (inl (OSError (Some en)), w)
        | None => (inr tt, set_fs (delete p) w)
        end
    end.

(** [os.makedirs(p)]: the missing ancestors of [p] are created on the
    way, outermost first, then [p] itself; a call that fails leaves the
    ancestors it got through. *)
Definition os_makedirs (p : string) : M world unit :=
  fun w =>
    match fs w !! p with
    | Some _ => (inl (OSError (Some errno.EEXIST)), w)
    | None =>
        match makedirs_outcome E (fs w) p with
        | MkCreated =>
            (inr tt, set_fs (fun m => <[p := Dir]> (mkdir_all (ancestors p) m)) w)
        | MkFailed en exists_after =>
            let made := take (makedirs_progress E (fs w) p) (ancestors p) in
            (inl (OSError en),
             if exists_after
             then set_fs (fun m => <[p := Dir]> (mkdir_all made m)) w
             else set_fs (mkdir_all made) w)
        end
    end.

(** [open(p, 'rb')]: the handle reads the content the file has now. *)
Definition open_rb (p : string) : M world filelike :=
  fun w =>
    match fs w !! p with
    | None => (inl (IOError (Some errno.ENOENT)), w)
    | Some Dir => (inl (IOError (Some errno.EISDIR)), w)
    | Some (File c) =>
        match open_read_fault E (fs w) p with
        | Some en => (inl (IOError (Some en)), w)
        | None => (inr {| data := c; fault := None |}, w)
        end
    end.

(** [open(p, 'wb')]: creates or truncates the file. *)
Definition open_wb (p : string) : M world unit :=
  fun w =>
    match fs w !! p with
    | Some Dir => (inl (IOError (Some errno.EISDIR)), w)
    | _ =>
        match open_write_fault E (fs w) p with
        | Some en => (inl (IOError (Some en)), w)
        | None => (inr tt, set_fs (insert p (File [])) w)
        end
    end.

(** [f.write(buf)] for the handle opened on [p].  Writes are unbuffered
    in this model, so closing the handle never fails. *)
Definition file_write (p : string) (buf : bytes) : M world unit :=
  fun w =>
    match fs w !! p with
    | Some (File c) =>
        match write_fault E (fs w) p buf with
        | Some (en, k) =>
            (inl (IOError (Some en)), set_fs (insert p (File (c ++ firstn k buf))) w)
        | None => (inr tt, set_fs (insert p (File (c ++ buf))) w)
        end
    | _ => (inl (IOError (Some errno.EBADF)), w)
    end.

(** *** [StoreLocation.parse_uri]

    [parse_uri] assigns to [self] and logs; its state is the location
    object together with the world. *)
Definition parse_uri (uri : string) : M (StoreLocation * world) unit :=
  let* pieces := (fun s => (urlparse E uri, s)) in
  if negb (str_in (pr_scheme pieces) ["file"; "filesystem"]) then raise AssertionError
  else
    modify (fun '(self, w) => ({| scheme := pr_scheme pieces; path := path self |}, w)) ;;;
    let path' := strip (pr_netloc pieces +:+ pr_path pieces) in
    if String.eqb path' "" then
      LOG snd (fun w '(self, _) => (self, w))
          DEBUG "No path specified in URI: %s" [AStr uri] ;;;
      raise (BadStoreUri "No path specified")
    else
      modify (fun '(self, w) => ({| scheme := scheme self; path := Some path' |}, w)).

(** *** [ChunkedFile] methods *)

(** [ChunkedFile(filepath)] *)
Definition ChunkedFile_init (filepath : string) : M world ChunkedFile :=
  let* fp := open_rb filepath in
  ret {| filepath := filepath; fp := Some fp |}.

(** [close]: a second call finds [self.fp] unset and does nothing. *)
Definition ChunkedFile_close (self : ChunkedFile) : ChunkedFile :=
  match fp self with
  | Some _ => {| filepath := filepath self; fp := None |}
  | None => self
  end.

(** [__iter__], run to exhaustion; the [finally] clause closes [self]. *)
Definition ChunkedFile_iter (self : ChunkedFile) : generated * ChunkedFile :=
  match fp self with
  | Some f =>
      let '(g, f') := read_chunks (S (length (data f))) CHUNKSIZE f in
      (g, ChunkedFile_close {| filepath := filepath self; fp := Some f' |})
  | None => ({| yields := []; raised := None |}, ChunkedFile_close self)
  end.

(** *** [Store] *)

(** [posixpath.join(a, b)]; [a] is [self.datadir], which is [None] until
    a data directory is configured. *)
Definition os_path_join (a : option string) (b : string) : exn + string :=
  if str_startswith "/" b then inr b
  else
    match a with
    | None => inl (OtherException "AttributeError")
    | Some a =>
        if String.eqb a "" || str_startswith "/" (String.rev a)
        then inr (a +:+ b)
        else inr (a +:+ "/" +:+ b)
    end.

Definition get_schemes : list string := ["file"; "filesystem"].

Definition lift_w {A} (m : M world A) : M (Store * world) A :=
  fun '(self, w) => let '(r, w') := m w in (r, (self, w')).

Definition LOGs : log_level -> string -> list log_arg -> M (Store * world) unit :=
  LOG snd (fun w '(self, _) => (self, w)).

Definition configure_add : M (Store * world) unit :=
  modify (fun '(self, w) =>
    ({| conf := conf self;
        datadir := filesystem_store_datadir (conf self) |}, w)) ;;;
  let* d := gets (fun '(self, _) => datadir self) in
  match d with
  | None =>
      let reason := "Could not find filesystem_store_datadir in configuration options." in
      LOGs ERROR reason [] ;;;
      raise (BadStoreConfiguration "filesystem" reason)
  | Some datadir =>
      let* ex := lift_w (os_path_exists datadir) in
      if negb ex then
        LOGs INFO "Directory to write image files does not exist (%s). Creating."
             [AStr datadir] ;;;
        try_except (lift_w (os_makedirs datadir))
          (fun e =>
             match e with
             | IOError _ | OSError _ =>
                 let* ex' := lift_w (os_path_exists datadir) in
                 if ex' then ret tt
                 else
                   let reason := "Unable to create datadir: " +:+ datadir in
                   LOGs ERROR reason [] ;;;
                   raise (BadStoreConfiguration "filesystem" reason)
             | _ => raise e
             end)
      else ret tt
  end.

Definition _resolve_location (location : Location) : M world (string * Z) :=
  match path (store_location location) with
  | None => raise (OtherException "TypeError")
  | Some filepath =>
      let* ex := os_path_exists filepath in
      if negb ex then raise (NotFound filepath)
      else
        let* filesize := os_path_getsize filepath in
        ret (filepath, filesize)
  end.

(** The [try] block of [_get_metadata]. *)
Definition load_metadata_file (metadata_file : string) : M world json :=
  let* fptr := open_rb metadata_file in
  let* metadata := (fun w => (jsonutils_load E (data fptr), w)) in
  match check_location_metadata E metadata with
  | Some e => raise e
  | None => ret metadata
  end.

(** The [except] clauses of [_get_metadata], tried in order. *)
Definition metadata_handlers (metadata_file : string) (e : exn) : M world json :=
  match e with
  | BackendException _ =>
      LOGw ERROR "The JSON in the metadata file %s could not be used: %s  An empty dictionary will be returned to the client."
           [AStr metadata_file; AExn e] ;;;
      ret (JDict [])
  | IOError _ =>
      LOGw ERROR "The path for the metadata file %s could not be opened: %s  An empty dictionary will be returned to the client."
           [AStr metadata_file; AExn e] ;;;
      ret (JDict [])
  | _ =>
      LOGw EXCEPTION "An error occurred processing the storage systems meta data file: %s.  An empty dictionary will be returned to the client."
           [AExn e] ;;;
      ret (JDict [])
  end.

Definition _get_metadata (self : Store) : M world json :=
  match filesystem_store_metadata_file (conf self) with
  | None => ret (JDict [])
  | Some metadata_file =>
      try_except (load_metadata_file metadata_file)
                 (metadata_handlers metadata_file)
  end.

Definition get (self : Store) (location : Location) : M world (list pyval) :=
  let* (filepath, filesize) := _resolve_location location in
  LOGw DEBUG "Found image at %s. Returning in ChunkedFile." [AStr filepath] ;;;
  let* cf := ChunkedFile_init filepath in
  ret [VChunked cf; VInt filesize].

Definition get_size (self : Store) (location : Location) : M world Z :=
  let* (filepath, filesize) := _resolve_location location in
  LOGw DEBUG "Found image at %s." [AStr filepath] ;;;
  ret filesize.

(** [Store.delete] (stdpp's map operation already has the bare name). *)
Definition Store_delete (self : Store) (location : Location) : M world unit :=
  match path (store_location location) with
  | None => raise (OtherException "TypeError")
  | Some fn =>
      let* ex := os_path_exists fn in
      if ex then
        try_except
          (LOGw DEBUG "Deleting image at %(fn)s" [AStr fn] ;;;
           os_unlink fn)
          (fun e =>
             match e with
             | OSError _ => raise (Forbidden ("You cannot delete file " +:+ fn))
             | _ => raise e
             end)
      else raise (NotFound fn)
  end.

Definition _delete_partial (filepath : string) (iid : string) : M world unit :=
  try_except (os_unlink filepath)
    (fun e =>
       LOGw ERROR "Unable to remove partial image data for image %s: %s"
            [AStr iid; AExn e]).

(** The [errors] dictionary of [add]. *)
Definition errors : gmap Z exn :=
  <[errno.EFBIG := StorageFull]>
    (<[errno.ENOSPC := StorageFull]>
      (<[errno.EACCES := StorageWriteDenied]> ∅)).

(** [errors.get(e.errno, e)] *)
Definition errors_get (en : option Z) (e : exn) : exn :=
  match en with
  | Some n => default e (errors !! n)
  | None => e
  end.

(** [for buf in gen: body]: the exception that ended the generator
    surfaces after the chunks it yielded were processed. *)
Fixpoint for_each {A} (chunks : list bytes) (end_exn : option exn)
    (body : bytes -> A -> M world A) (a : A) : M world A :=
  match chunks with
  | [] => match end_exn with Some e => raise e | None => ret a end
  | buf :: rest =>
      let* a' := body buf a in
      for_each rest end_exn body a'
  end.

(** The body of the loop of [add], on [(bytes_written, checksum)]. *)
Definition add_chunk (filepath : string) (buf : bytes) (acc : Z * md5) : M world (Z * md5) :=
  let '(bytes_written, checksum) := acc in
  let bytes_written := bytes_written + Z.of_nat (length buf) in
  let checksum := md5_update checksum buf in
  file_write filepath buf ;;;
  ret (bytes_written, checksum).

(** The [try] block of [add]: returns [(bytes_written, checksum)]. *)
Definition add_write (filepath : string) (image_file : filelike) : M world (Z * md5) :=
  open_wb filepath ;;;
  let gen := chunkreadable image_file CHUNKSIZE in
  for_each (yields gen) (raised gen) (add_chunk filepath) (0, hashlib_md5).

(** The [except] clauses of [add]. *)
Definition add_handlers (filepath image_id : string) (e : exn) : M world (Z * md5) :=
  match e with
  | IOError en =>
      (if negb (bool_decide (en = Some errno.EACCES))
       then _delete_partial filepath image_id else ret tt) ;;;
      raise (errors_get en e)
  | _ =>
      _delete_partial filepath image_id ;;;
      raise e
  end.

Definition add (self : Store) (image_id : string) (image_file : filelike)
    (image_size : Z) : M world (list pyval) :=
  let* filepath := (fun w => (os_path_join (datadir self) image_id, w)) in
  let* ex := os_path_exists filepath in
  if ex then raise (Duplicate filepath)
  else
    let* (bytes_written, checksum) :=
      try_except (add_write filepath image_file)
                 (add_handlers filepath image_id) in
    let checksum_hex := md5_hexdigest E (fed checksum) in
    let* metadata := _get_metadata self in
    LOGw DEBUG "Wrote %(bytes_written)d bytes to %(filepath)s with checksum %(checksum_hex)s"
         [AInt bytes_written; AStr filepath; AStr checksum_hex] ;;;
    ret [VStr ("file://" +:+ filepath); VInt bytes_written;
         VStr checksum_hex; VMeta metadata].

End Driver.

(** The location that names an object stored at [filepath]. *)
Definition location_of (filepath : string) : Location :=
  {| store_location :=
       process_specs (<["path" := filepath]> (<["scheme" := "file"]> ∅)) |}.

(** [StoreLocation.parse_uri] then [get_uri], on a fresh location object. *)
Definition parse_then_format (E : Env) (uri : string) (w : world) : exn + string :=
  match parse_uri E uri (process_specs ∅, w) with
  | (inl e, _) => inl e
  | (inr _, (self, _)) => inr (get_uri self)
  end.

(** Modelled from the spec: [glance.store.location.get_location_from_uri]
    is not part of [filesystem.py]; per the spec a location is
    "constructed by parsing an external URI string", and [get] takes the
    location "supplied from" it: a fresh [StoreLocation] on which
    [parse_uri] is called. *)
Definition get_location_from_uri (E : Env) (uri : string) : M world Location :=
  fun w =>
    match parse_uri E uri (process_specs ∅, w) with
    | (inl e, (_, w')) => (inl e, w')
    | (inr _, (self, w')) => (inr {| store_location := self |}, w')
    end.

(** ** An executable environment for the examples

    [urlparse] is the CPython 2.7 one; the JSON reader knows three
    documents; the shape check accepts dictionaries and lists whose leaves
    are strings; the digest is a stand-in that prints its input in
    hexadecimal.  The system-call verdicts are the arguments. *)
Module Demo.

Definition hex_digit (n : N) : ascii :=
  ascii_of_N (if (n <? 10)%N then 48 + n else 87 + n).

Fixpoint hexdump (b : bytes) : string :=
  match b with
  | [] => EmptyString
  | x :: b' =>
      let n := Byte.to_N x in
      String (hex_digit (n / 16)) (String (hex_digit (n mod 16)) (hexdump b'))
  end.

Definition load (b : bytes) : exn + json :=
  let s := string_of_list_byte b in
  if String.eqb s "{}" then inr (JDict [])
  else if String.eqb s "{'k': 'v'}" then inr (JDict [("k", JStr "v")])
  else if String.eqb s "{'n': 1}" then inr (JDict [("n", JNum 1)])
  else inl (OtherException "ValueError").

Fixpoint well_shaped (j : json) : bool :=
  match j with
  | JStr _ => true
  | JList l => forallb well_shaped l
  | JDict items => forallb (fun kv => well_shaped (snd kv)) items
  | _ => false
  end.

Definition check (j : json) : option exn :=
  if well_shaped j then None
  else Some (BackendException "The image metadata key has an invalid type").

Definition env (rd wr : option Z) (wf : option (Z * nat)) (ul : option Z)
    (mk : makedirs_result) : Env :=
  {| urlparse := urlparse27.urlparse;
     md5_hexdigest := hexdump;
     jsonutils_load := load;
     check_location_metadata := check;
     open_read_fault := fun _ _ => rd;
     open_write_fault := fun _ _ => wr;
     write_fault := fun _ _ _ => wf;
     unlink_fault := fun _ _ => ul;
     makedirs_outcome := fun _ _ => mk;
     makedirs_progress := fun _ _ => 0%nat;
     dir_size := fun _ => 4096 |}.

(** No system call fails. *)
Definition quiet : Env := env None None None None MkCreated.

Definition b (s : string) : bytes := list_byte_of_string s.

(** A configured store over [/data], without and with a metadata file. *)
Definition store : Store :=
  {| conf := {| filesystem_store_datadir := Some "/data";
                filesystem_store_metadata_file := None |};
     datadir := Some "/data" |}.

Definition store_md : Store :=
  {| conf := {| filesystem_store_datadir := Some "/data";
                filesystem_store_metadata_file := Some "/etc/md.json" |};
     datadir := Some "/data" |}.

Definition w0 : world :=
  {| fs := <["/data" := Dir]> (<["/etc/md.json" := File (b "{'k': 'v'}")]> ∅);
     log := [] |}.

(** [w0] with one stored image. *)
Definition w1 : world :=
  {| fs := <["/data/img" := File (b "hello")]> (fs w0); log := [] |}.

(** An image stream that fails on its second [read]. *)
Definition broken (e : exn) : filelike :=
  {| data := b "0123456789"; fault := Some (1%nat, e) |}.

Definition whole (s : string) : filelike :=
  {| data := b s; fault := None |}.

End Demo.

(** * Properties *)

(** ** Strings *)

Lemma rstrip_nonspace_last (s : string) (c : ascii) :
  isspace c = false -> rstrip (s +:+ String c EmptyString) = s +:+ String c EmptyString.
Proof.
  intros Hc. induction s as [|a s IH]; simpl.
  - now rewrite Hc.
  - rewrite IH. destruct s; reflexivity.
Qed.

Lemma lstrip_nonspace_first (s : string) (c : ascii) :
  isspace c = false -> lstrip (String c s) = String c s.
Proof. intros Hc. simpl. now rewrite Hc. Qed.

(** A string that starts and ends with a non-blank character is left
    alone by [strip]. *)
Lemma strip_fixed (c d : ascii) (s : string) :
  isspace c = false -> isspace d = false ->
  strip (String c (s +:+ String d EmptyString)) = String c (s +:+ String d EmptyString).
Proof.
  intros Hc Hd. unfold strip. rewrite lstrip_nonspace_first by assumption.
  change (String c (s +:+ String d EmptyString))
    with ((String c s) +:+ String d EmptyString).
  now apply rstrip_nonspace_last.
Qed.

Lemma strip_single (c : ascii) :
  isspace c = false -> strip (String c EmptyString) = String c EmptyString.
Proof. intros Hc. unfold strip. simpl. rewrite Hc. simpl. now rewrite Hc. Qed.

Lemma str_in_schemes (s : string) :
  str_in s ["file"; "filesystem"] = true <-> s = "file" \/ s = "filesystem".
Proof.
  unfold str_in. simpl. rewrite !orb_true_iff, !String.eqb_eq.
  intuition discriminate.
Qed.

(** ** [StoreLocation] *)

(** What [parse_uri] does in each of its three outcomes, once
    [urlparse] has returned. *)
Lemma parse_uri_unfold (E : Env) (uri : string) (pieces : ParseResult)
    (self : StoreLocation) (w : world) :
  urlparse E uri = inr pieces ->
  parse_uri E uri (self, w) =
    if negb (str_in (pr_scheme pieces) ["file"; "filesystem"])
    then (inl AssertionError, (self, w))
    else if String.eqb (strip (pr_netloc pieces +:+ pr_path pieces)) ""
    then (inl (BadStoreUri "No path specified"),
          ({| scheme := pr_scheme pieces; path := path self |},
           {| fs := fs w;
              log := log w ++ [LogEntry DEBUG "No path specified in URI: %s" [AStr uri]] |}))
    else (inr tt,
          ({| scheme := pr_scheme pieces;
              path := Some (strip (pr_netloc pieces +:+ pr_path pieces)) |}, w)).
Proof.
  intros Hp. unfold parse_uri, bind. rewrite Hp.
  destruct (negb (str_in (pr_scheme pieces) ["file"; "filesystem"])); [reflexivity|].
  cbn. destruct (String.eqb _ ""); reflexivity.
Qed.

Lemma parse_then_format_unfold (E : Env) (uri : string) (pieces : ParseResult) (w : world) :
  urlparse E uri = inr pieces ->
  pr_scheme pieces = "file" \/ pr_scheme pieces = "filesystem" ->
  strip (pr_netloc pieces +:+ pr_path pieces) <> "" ->
  parse_then_format E uri w =
    inr ("file://" +:+ strip (pr_netloc pieces +:+ pr_path pieces)).
Proof.
  intros Hp Hs Hne. unfold parse_then_format.
  rewrite (parse_uri_unfold E uri pieces _ w Hp).
  apply str_in_schemes in Hs. rewrite Hs. cbn [negb].
  destruct (String.eqb_spec (strip (pr_netloc pieces +:+ pr_path pieces)) "") as [Heq|_];
    [contradiction|reflexivity].
Qed.

(** C5 (as amended).  For a URI that [urlparse] splits into an accepted
    scheme and a host+path component that is non-empty after trimming,
    parsing then formatting yields [file://] followed by the trimmed
    host+path component, whichever accepted scheme came in; when that
    component starts and ends with a non-blank character it comes back
    unchanged. *)
Theorem parse_then_format_trims (E : Env) (uri : string) (pieces : ParseResult) (w : world) :
  urlparse E uri = inr pieces ->
  pr_scheme pieces = "file" \/ pr_scheme pieces = "filesystem" ->
  strip (pr_netloc pieces +:+ pr_path pieces) <> "" ->
  parse_then_format E uri w =
    inr ("file://" +:+ strip (pr_netloc pieces +:+ pr_path pieces))
  /\ (forall c d s,
        pr_netloc pieces +:+ pr_path pieces = String c (s +:+ String d EmptyString) ->
        isspace c = false -> isspace d = false ->
        parse_then_format E uri w =
          inr ("file://" +:+ (pr_netloc pieces +:+ pr_path pieces))).
Proof.
  intros Hp Hs Hne.
  pose proof (parse_then_format_unfold E uri pieces w Hp Hs Hne) as H.
  split; [exact H|].
  intros c d s Heq Hc Hd. rewrite H, Heq, strip_fixed by assumption. reflexivity.
Qed.

Lemma parse_then_format_trims_witness :
  parse_then_format Demo.quiet "filesystem://host/a/b" Demo.w0 = inr "file://host/a/b".
Proof.
  refine (proj1 (parse_then_format_trims Demo.quiet "filesystem://host/a/b"
            {| pr_scheme := "filesystem"; pr_netloc := "host"; pr_path := "/a/b";
               pr_params := ""; pr_query := ""; pr_fragment := "" |}
            Demo.w0 _ _ _)).
  - reflexivity.
  - right. reflexivity.
  - vm_compute. discriminate.
Defined.

(** C5 (as stated) fails: with a trailing blank the path is accepted,
    non-empty, and does not come back unchanged. *)
Lemma parse_then_format_changes_path :
  urlparse Demo.quiet "file:///tmp/img " =
    inr {| pr_scheme := "file"; pr_netloc := ""; pr_path := "/tmp/img ";
           pr_params := ""; pr_query := ""; pr_fragment := "" |}
  /\ parse_then_format Demo.quiet "file:///tmp/img " Demo.w0 = inr "file:///tmp/img"
  /\ parse_then_format Demo.quiet "file:///tmp/img " Demo.w0 <> inr ("file://" +:+ "/tmp/img ").
Proof.
  split; [reflexivity|]. split; [reflexivity|]. vm_compute. discriminate.
Qed.

(** C6.  For both accepted schemes, a URI whose host+path component is
    empty after trimming makes [parse_uri] raise [BadStoreUri], leaving
    the location's path as it was; and no call of [parse_uri] ever turns
    the path into the empty string. *)
Theorem parse_uri_empty_path (E : Env) (uri : string) (pieces : ParseResult)
    (self : StoreLocation) (w : world) :
  urlparse E uri = inr pieces ->
  pr_scheme pieces = "file" \/ pr_scheme pieces = "filesystem" ->
  strip (pr_netloc pieces +:+ pr_path pieces) = "" ->
  (exists w',
     parse_uri E uri (self, w) =
       (inl (BadStoreUri "No path specified"),
        ({| scheme := pr_scheme pieces; path := path self |}, w'))
     /\ fs w' = fs w)
  /\ (forall uri0 self0 w0,
        path (fst (snd (parse_uri E uri0 (self0, w0)))) = Some "" ->
        path self0 = Some "").
Proof.
  intros Hp Hs He. split.
  - rewrite (parse_uri_unfold E uri pieces self w Hp).
    apply str_in_schemes in Hs. rewrite Hs, He. cbn. eexists. split; reflexivity.
  - intros uri0 self0 w0.
    destruct (urlparse E uri0) as [e|p0] eqn:Hu.
    + unfold parse_uri, bind. rewrite Hu. cbn. tauto.
    + rewrite (parse_uri_unfold E uri0 p0 self0 w0 Hu).
      destruct (negb _); [cbn; tauto|].
      destruct (String.eqb_spec (strip (pr_netloc p0 +:+ pr_path p0)) "") as [Heq|Hne];
        cbn; [tauto|]. intros H. congruence.
Qed.

Lemma parse_uri_empty_path_witness :
  exists w',
    parse_uri Demo.quiet "filesystem://  " (process_specs ∅, Demo.w0) =
      (inl (BadStoreUri "No path specified"),
       ({| scheme := "filesystem"; path := None |}, w'))
    /\ fs w' = fs Demo.w0.
Proof.
  refine (proj1 (parse_uri_empty_path Demo.quiet "filesystem://  "
            {| pr_scheme := "filesystem"; pr_netloc := "  "; pr_path := "";
               pr_params := ""; pr_query := ""; pr_fragment := "" |}
            (process_specs ∅) Demo.w0 _ _ _)).
  - reflexivity.
  - right. reflexivity.
  - reflexivity.
Defined.

(** C10.  When the scheme that [urlparse] reports is neither [file] nor
    [filesystem], [parse_uri] raises [AssertionError] (not
    [BadStoreUri]) and neither the location nor the world changes; hence
    a call that returns normally saw an accepted scheme. *)
Theorem parse_uri_rejects_scheme (E : Env) (uri : string) (pieces : ParseResult)
    (self : StoreLocation) (w : world) :
  urlparse E uri = inr pieces ->
  pr_scheme pieces <> "file" ->
  pr_scheme pieces <> "filesystem" ->
  parse_uri E uri (self, w) = (inl AssertionError, (self, w))
  /\ (forall uri0 s0 s1,
        parse_uri E uri0 s0 = (inr tt, s1) ->
        exists p0, urlparse E uri0 = inr p0 /\
                   (pr_scheme p0 = "file" \/ pr_scheme p0 = "filesystem")).
Proof.
  intros Hp H1 H2. split.
  - rewrite (parse_uri_unfold E uri pieces self w Hp).
    destruct (str_in (pr_scheme pieces) ["file"; "filesystem"]) eqn:Hs; [|reflexivity].
    apply str_in_schemes in Hs. tauto.
  - intros uri0 [self0 w0] s1.
    destruct (urlparse E uri0) as [e|p0] eqn:Hu.
    + unfold parse_uri, bind. rewrite Hu. discriminate.
    + rewrite (parse_uri_unfold E uri0 p0 self0 w0 Hu).
      destruct (str_in (pr_scheme p0) ["file"; "filesystem"]) eqn:Hs; cbn [negb].
      * intros _. exists p0. split; [reflexivity|]. now apply str_in_schemes.
      * discriminate.
Qed.

Lemma parse_uri_rejects_scheme_witness :
  parse_uri Demo.quiet "http://x/y" (process_specs ∅, Demo.w0) =
    (inl AssertionError, (process_specs ∅, Demo.w0)).
Proof.
  refine (proj1 (parse_uri_rejects_scheme Demo.quiet "http://x/y"
            {| pr_scheme := "http"; pr_netloc := "x"; pr_path := "/y";
               pr_params := ""; pr_query := ""; pr_fragment := "" |}
            (process_specs ∅) Demo.w0 _ _ _)).
  - reflexivity.
  - discriminate.
  - discriminate.
Defined.

(** ** The monad *)

Lemma try_except_raise {S A} (body : M S A) (handler : exn -> M S A)
    (s : S) (e : exn) (s' : S) :
  body s = (inl e, s') -> try_except body handler s = handler e s'.
Proof. intros H. unfold try_except. now rewrite H. Qed.

Lemma try_except_return {S A} (body : M S A) (handler : exn -> M S A)
    (s : S) (a : A) (s' : S) :
  body s = (inr a, s') -> try_except body handler s = (inr a, s').
Proof. intros H. unfold try_except. now rewrite H. Qed.

Lemma bind_raise {S A B} (m : M S A) (k : A -> M S B) (s : S) (e : exn) (s' : S) :
  m s = (inl e, s') -> bind m k s = (inl e, s').
Proof. intros H. unfold bind. now rewrite H. Qed.

Lemma bind_return {S A B} (m : M S A) (k : A -> M S B) (s : S) (a : A) (s' : S) :
  m s = (inr a, s') -> bind m k s = k a s'.
Proof. intros H. unfold bind. now rewrite H. Qed.

(** ** The metadata loader *)

(** Whatever the [try] block of [_get_metadata] raises, one of the three
    handlers takes it, logs once and returns the empty dictionary. *)
Lemma metadata_handlers_total (f : string) (e : exn) (w : world) :
  exists entry,
    metadata_handlers f e w =
      (inr (JDict []), {| fs := fs w; log := log w ++ [entry] |})
    /\ (level entry = ERROR \/ level entry = EXCEPTION).
Proof.
  destruct e; cbn; eexists; (split; [reflexivity|]); cbn; tauto.
Qed.

(** The [try] block of [_get_metadata] only reads. *)
Lemma load_metadata_file_pure (E : Env) (f : string) (w : world) :
  snd (load_metadata_file E f w) = w.
Proof.
  unfold load_metadata_file, bind, open_rb.
  destruct (fs w !! f) as [[c|]|]; try reflexivity.
  destruct (open_read_fault E (fs w) f); try reflexivity.
  cbn. destruct (jsonutils_load E c); try reflexivity.
  destruct (check_location_metadata E j); reflexivity.
Qed.

Lemma get_metadata_degraded (E : Env) (self : Store) (f : string) (e : exn) (w : world) :
  filesystem_store_metadata_file (conf self) = Some f ->
  load_metadata_file E f w = (inl e, w) ->
  exists entry,
    _get_metadata E self w =
      (inr (JDict []), {| fs := fs w; log := log w ++ [entry] |})
    /\ (level entry = ERROR \/ level entry = EXCEPTION).
Proof.
  intros Hf He. unfold _get_metadata. rewrite Hf.
  rewrite (try_except_raise _ _ w e w He). apply metadata_handlers_total.
Qed.

(** [_get_metadata] returns normally, whatever happens. *)
Lemma get_metadata_returns (E : Env) (self : Store) (w : world) :
  exists m w', _get_metadata E self w = (inr m, w') /\ fs w' = fs w.
Proof.
  unfold _get_metadata.
  destruct (filesystem_store_metadata_file (conf self)) as [f|].
  - pose proof (load_metadata_file_pure E f w) as Hp.
    destruct (load_metadata_file E f w) as [[e|m] w1] eqn:Hb; cbn in Hp; subst w1.
    + rewrite (try_except_raise _ _ w e w Hb).
      destruct (metadata_handlers_total f e w) as (entry & -> & _).
      eexists _, _. split; reflexivity.
    + rewrite (try_except_return _ _ w m w Hb). eexists _, _. split; reflexivity.
  - eexists _, _. split; reflexivity.
Qed.

(** C7.  [_get_metadata] always returns normally and leaves the
    filesystem alone.  Without a configured metadata file it returns the
    empty dictionary; when the file is missing, cannot be opened, does not
    parse, or fails the shape check, it appends one [ERROR] or
    [EXCEPTION] entry to the log and returns the empty dictionary. *)
Theorem get_metadata_never_raises (E : Env) (self : Store) (w : world) :
  (exists m w', _get_metadata E self w = (inr m, w') /\ fs w' = fs w)
  /\ (filesystem_store_metadata_file (conf self) = None ->
      _get_metadata E self w = (inr (JDict []), w))
  /\ (forall f, filesystem_store_metadata_file (conf self) = Some f ->
      let degraded :=
        exists entry,
          _get_metadata E self w =
            (inr (JDict []), {| fs := fs w; log := log w ++ [entry] |})
          /\ (level entry = ERROR \/ level entry = EXCEPTION) in
      (fs w !! f = None -> degraded)
      /\ (fs w !! f = Some Dir -> degraded)
      /\ (forall c en, fs w !! f = Some (File c) ->
            open_read_fault E (fs w) f = Some en -> degraded)
      /\ (forall c e, fs w !! f = Some (File c) ->
            open_read_fault E (fs w) f = None ->
            jsonutils_load E c = inl e -> degraded)
      /\ (forall c j e, fs w !! f = Some (File c) ->
            open_read_fault E (fs w) f = None ->
            jsonutils_load E c = inr j ->
            check_location_metadata E j = Some e -> degraded)).
Proof.
  split; [apply get_metadata_returns|].
  split; [intros Hf; unfold _get_metadata; now rewrite Hf|].
  intros f Hf. cbv zeta. repeat split.
  - intros Hl. apply (get_metadata_degraded E self f (IOError (Some errno.ENOENT))); [exact Hf|].
    unfold load_metadata_file, bind, open_rb. now rewrite Hl.
  - intros Hl. apply (get_metadata_degraded E self f (IOError (Some errno.EISDIR))); [exact Hf|].
    unfold load_metadata_file, bind, open_rb. now rewrite Hl.
  - intros c en Hl Ho. apply (get_metadata_degraded E self f (IOError (Some en))); [exact Hf|].
    unfold load_metadata_file, bind, open_rb. now rewrite Hl, Ho.
  - intros c e Hl Ho Hj. apply (get_metadata_degraded E self f e); [exact Hf|].
    unfold load_metadata_file, bind, open_rb. rewrite Hl, Ho. cbn. now rewrite Hj.
  - intros c j e Hl Ho Hj Hc. apply (get_metadata_degraded E self f e); [exact Hf|].
    unfold load_metadata_file, bind, open_rb. rewrite Hl, Ho. cbn. rewrite Hj, Hc. reflexivity.
Qed.

(** ** [makedirs] *)

Lemma string_length_app (a b : string) :
  String.length (a +:+ b) = (String.length a + String.length b)%nat.
Proof.
  induction a as [|c a IH]; [reflexivity|].
  change (S (String.length (a +:+ b)) = S (String.length a + String.length b)).
  now rewrite IH.
Qed.

Lemma ancestors_aux_shorter (acc s q : string) :
  q ∈ ancestors_aux acc s ->
  (String.length q < String.length acc + String.length s)%nat.
Proof.
  revert acc. induction s as [|c s IH]; intros acc Hq; cbn in Hq.
  - inversion Hq.
  - apply elem_of_app in Hq as [Hq|Hq].
    + destruct (_ && _); [|inversion Hq].
      apply list_elem_of_singleton in Hq as ->. cbn. lia.
    + apply IH in Hq. rewrite string_length_app in Hq. cbn in *. lia.
Qed.

(** A path is not among its own ancestors. *)
Lemma ancestors_proper (p : string) : p ∉ ancestors p.
Proof.
  intros H. apply ancestors_aux_shorter in H. cbn in H. lia.
Qed.

(** [mkdir_all] adds a directory where there was nothing and keeps
    everything else. *)
Lemma mkdir_all_lookup (ps : list string) (m : gmap string node) (q : string) :
  mkdir_all ps m !! q =
    match m !! q with
    | Some n => Some n
    | None => if decide (q ∈ ps) then Some Dir else None
    end.
Proof.
  unfold mkdir_all. revert m. induction ps as [|a ps IH]; intros m.
  - cbn. destruct (m !! q); [reflexivity|]. now rewrite decide_False by apply not_elem_of_nil.
  - cbn [foldl]. rewrite IH. destruct (m !! a) as [na|] eqn:Ha.
    + destruct (m !! q) eqn:Hq; [reflexivity|].
      assert (q <> a) by congruence.
      destruct (decide (q ∈ ps)) as [Hin|Hin].
      * rewrite decide_True; [reflexivity|]. apply elem_of_cons. now right.
      * rewrite decide_False; [reflexivity|].
        intros Hc. apply elem_of_cons in Hc as [Hc|Hc]; contradiction.
    + destruct (decide (q = a)) as [->|Hne].
      * rewrite lookup_insert_eq, Ha. rewrite decide_True; [reflexivity|].
        apply elem_of_cons. now left.
      * rewrite lookup_insert_ne by congruence.
        destruct (m !! q) eqn:Hq; [reflexivity|].
        destruct (decide (q ∈ ps)) as [Hin|Hin].
        -- rewrite decide_True; [reflexivity|]. apply elem_of_cons. now right.
        -- rewrite decide_False; [reflexivity|].
           intros Hc. apply elem_of_cons in Hc as [Hc|Hc]; contradiction.
Qed.

Lemma mkdir_all_ancestors_leaf (k : nat) (d : string) (m : gmap string node) :
  mkdir_all (take k (ancestors d)) m !! d = m !! d.
Proof.
  rewrite mkdir_all_lookup. destruct (m !! d); [reflexivity|].
  rewrite decide_False; [reflexivity|].
  intros H. apply elem_of_take in H as (i & H & _).
  apply list_elem_of_lookup_2 in H. now apply ancestors_proper in H.
Qed.

(** ** [configure_add] *)

(** The four ways through [configure_add]. *)
Lemma configure_add_unfold (E : Env) (self : Store) (w : world) :
  configure_add E (self, w) =
    let self' := {| conf := conf self;
                    datadir := filesystem_store_datadir (conf self) |} in
    match filesystem_store_datadir (conf self) with
    | None =>
        let reason := "Could not find filesystem_store_datadir in configuration options." in
        (inl (BadStoreConfiguration "filesystem" reason),
         (self', add_log (LogEntry ERROR reason []) w))
    | Some d =>
        match fs w !! d with
        | Some _ => (inr tt, (self', w))
        | None =>
            let wi := add_log (LogEntry INFO
                        "Directory to write image files does not exist (%s). Creating."
                        [AStr d]) w in
            match makedirs_outcome E (fs w) d with
            | MkCreated =>
                (inr tt,
                 (self', set_fs (fun m => <[d := Dir]> (mkdir_all (ancestors d) m)) wi))
            | MkFailed _ true =>
                (inr tt,
                 (self',
                  set_fs (fun m => <[d := Dir]>
                            (mkdir_all (take (makedirs_progress E (fs w) d) (ancestors d)) m))
                         wi))
            | MkFailed _ false =>
                let reason := "Unable to create datadir: " +:+ d in
                (inl (BadStoreConfiguration "filesystem" reason),
                 (self',
                  add_log (LogEntry ERROR reason [])
                    (set_fs (mkdir_all (take (makedirs_progress E (fs w) d) (ancestors d)))
                            wi)))
            end
        end
    end.
Proof.
  unfold configure_add, bind, modify, gets. cbn.
  destruct (filesystem_store_datadir (conf self)) as [d|]; [|reflexivity].
  unfold lift_w, os_path_exists, gets. cbn.
  destruct (fs w !! d) as [n|] eqn:Hd; cbn; [reflexivity|].
  unfold try_except, lift_w, os_makedirs. cbn. rewrite Hd.
  destruct (makedirs_outcome E (fs w) d) as [|en [|]]; cbn.
  - reflexivity.
  - unfold os_path_exists, gets, bind. cbn. rewrite lookup_insert_eq. reflexivity.
  - unfold os_path_exists, gets, bind. cbn.
    rewrite mkdir_all_ancestors_leaf, Hd. reflexivity.
Qed.

(** C8.  [configure_add] raises [BadStoreConfiguration] exactly when no
    data directory is configured, or the directory is missing, creating
    it fails and it is still missing afterwards; it raises nothing else.
    When creation fails but the directory is there on the second look,
    it returns normally.  After a normal return the directory exists, and
    calling [configure_add] again returns normally and changes nothing,
    whatever the system would answer to a new [makedirs]. *)
Theorem configure_add_spec (E : Env) (self : Store) (w : world) :
  ((exists sn r, fst (configure_add E (self, w)) = inl (BadStoreConfiguration sn r))
   <-> (filesystem_store_datadir (conf self) = None
        \/ exists d en,
             filesystem_store_datadir (conf self) = Some d
             /\ fs w !! d = None
             /\ makedirs_outcome E (fs w) d = MkFailed en false))
  /\ (forall e, fst (configure_add E (self, w)) = inl e ->
        exists r, e = BadStoreConfiguration "filesystem" r)
  /\ (forall d en,
        filesystem_store_datadir (conf self) = Some d ->
        fs w !! d = None ->
        makedirs_outcome E (fs w) d = MkFailed en true ->
        fst (configure_add E (self, w)) = inr tt)
  /\ (forall self' w',
        configure_add E (self, w) = (inr tt, (self', w')) ->
        (exists d, datadir self' = Some d /\ is_Some (fs w' !! d))
        /\ forall E', configure_add E' (self', w') = (inr tt, (self', w'))).
Proof.
  rewrite configure_add_unfold. cbv zeta.
  destruct (filesystem_store_datadir (conf self)) as [d|] eqn:Hd.
  - destruct (fs w !! d) as [n|] eqn:Hl;
      [|destruct (makedirs_outcome E (fs w) d) as [|en [|]] eqn:Hm].
    1-3: split; [split|split; [|split]].
    1, 6, 11: intros (sn & r & H); discriminate.
    1, 5, 9: intros [H|(d0 & en0 & [= <-] & H1 & H2)]; congruence.
    1, 4, 7: discriminate.
    1, 3, 5: reflexivity.
    1-3: intros self' w' H; injection H as <- <-; split;
      [exists d; cbn; rewrite ?lookup_insert_eq, ?Hl; eauto
      |intros E'; rewrite configure_add_unfold; cbn;
       rewrite Hd, ?lookup_insert_eq, ?Hl; reflexivity].
    split; [split|split; [|split]].
    + intros _. right. exists d, en. auto.
    + intros _. cbn. eauto.
    + cbn. intros e [= <-]. eauto.
    + intros d0 en0 [= <-] _ H. congruence.
    + discriminate.
  - split; [split|split; [|split]].
    + intros _. left. reflexivity.
    + intros _. cbn. eauto.
    + cbn. intros e [= <-]. eauto.
    + discriminate.
    + discriminate.
Qed.

(** ** Reading in chunks *)

Lemma read_ok (n : nat) (fp : filelike) (chunk : bytes) (fp' : filelike) :
  read n fp = (inr chunk, fp') ->
  chunk = take n (data fp) /\ data fp' = drop n (data fp)
  /\ (fault fp = None -> fault fp' = None).
Proof.
  unfold read. destruct (fault fp) as [[[|k] e]|]; intros [= <- <-]; cbn; auto.
  repeat split. discriminate.
Qed.

(** With enough fuel the loop stops by itself: the chunks it yielded,
    followed by what is left in the stream, are the stream's data; and if
    it ended without an exception nothing is left. *)
Lemma read_chunks_split (fuel n : nat) (fp : filelike) :
  (0 < n)%nat -> (length (data fp) < fuel)%nat ->
  data fp = (concat (yields (read_chunks fuel n fp).1) ++ data (read_chunks fuel n fp).2)%list
  /\ (raised (read_chunks fuel n fp).1 = None -> data (read_chunks fuel n fp).2 = [])
  /\ (fault fp = None -> raised (read_chunks fuel n fp).1 = None).
Proof.
  intros Hn. revert fp. induction fuel as [|fuel IH]; intros fp Hlen; [lia|].
  cbn [read_chunks].
  destruct (read n fp) as [[e|chunk] fp1] eqn:Hr.
  - cbn. unfold read in Hr.
    destruct (fault fp) as [[[|k] e0]|] eqn:Hf; try discriminate.
    injection Hr as <- <-. repeat split; discriminate.
  - apply read_ok in Hr as (Hc & Hd & Hf).
    destruct chunk as [|b chunk].
    + cbn. rewrite Hd.
      assert (data fp = []) as ->.
      { destruct (data fp) as [|x l]; [reflexivity|].
        destruct n; [lia|discriminate]. }
      rewrite drop_nil. auto.
    + assert (Hlt : (length (data fp1) < fuel)%nat).
      { rewrite Hd, length_drop.
        assert (length (take n (data fp)) <> 0)%nat by (rewrite <- Hc; cbn; lia).
        rewrite length_take in H. lia. }
      specialize (IH fp1 Hlt).
      destruct (read_chunks fuel n fp1) as [g fp2].
      cbn [fst snd yields raised concat] in *.
      destruct IH as (IH1 & IH2 & IH3). repeat split.
      * rewrite <- app_assoc, <- IH1, Hc, Hd. symmetry. apply take_drop.
      * exact IH2.
      * intros H. apply IH3, Hf, H.
Qed.

Lemma CHUNKSIZE_pos : (0 < CHUNKSIZE)%nat.
Proof. unfold CHUNKSIZE. lia. Qed.

(** A stream that was read to its end without an exception was read
    whole. *)
Lemma chunkreadable_whole (image_file : filelike) :
  raised (chunkreadable image_file CHUNKSIZE) = None ->
  concat (yields (chunkreadable image_file CHUNKSIZE)) = data image_file.
Proof.
  unfold chunkreadable. intros Hr.
  destruct (read_chunks_split (S (length (data image_file))) CHUNKSIZE image_file
              CHUNKSIZE_pos ltac:(lia)) as (H1 & H2 & _).
  rewrite H1 at 2. rewrite (H2 Hr). now rewrite app_nil_r.
Qed.

(** More fuel than the stream has bytes changes nothing. *)
Lemma read_chunks_fuel (fuel fuel' n : nat) (fp : filelike) :
  (0 < n)%nat -> (length (data fp) < fuel)%nat -> (length (data fp) < fuel')%nat ->
  read_chunks fuel n fp = read_chunks fuel' n fp.
Proof.
  intros Hn. revert fuel' fp.
  induction fuel as [|fuel IH]; intros [|fuel'] fp H1 H2; try lia.
  cbn [read_chunks].
  destruct (read n fp) as [[e|chunk] fp1] eqn:Hr; [reflexivity|].
  destruct chunk as [|b chunk]; [reflexivity|].
  apply read_ok in Hr as (Hc & Hd & _).
  assert (Hlt : (length (data fp1) < length (data fp))%nat).
  { rewrite Hd, length_drop.
    assert (length (take n (data fp)) <> 0)%nat by (rewrite <- Hc; cbn; lia).
    rewrite length_take in H. lia. }
  rewrite (IH fuel' fp1) by lia. reflexivity.
Qed.

(** ** Writing an image *)

Lemma world_eq (w1 w2 : world) :
  fs w1 = fs w2 -> log w1 = log w2 -> w1 = w2.
Proof. destruct w1, w2. cbn. now intros -> ->. Qed.

Lemma file_write_ok (E : Env) (p : string) (buf c : bytes) (w : world) :
  fs w !! p = Some (File c) ->
  write_fault E (fs w) p buf = None ->
  file_write E p buf w = (inr tt, set_fs (insert p (File (c ++ buf))) w).
Proof. intros Hl Hf. unfold file_write. now rewrite Hl, Hf. Qed.

(** The loop of [add] ran to its end: every chunk was counted, hashed
    and appended, and the stream ended without an exception. *)
Lemma for_each_add_chunk_ok (E : Env) (p : string) (chunks : list bytes)
    (end_exn : option exn) :
  forall (bw : Z) (ck : md5) (w : world) (c0 : bytes) (bw' : Z) (ck' : md5) (w' : world),
    fs w !! p = Some (File c0) ->
    for_each chunks end_exn (add_chunk E p) (bw, ck) w = (inr (bw', ck'), w') ->
    end_exn = None
    /\ bw' = bw + Z.of_nat (length (concat chunks))
    /\ fed ck' = (fed ck ++ concat chunks)%list
    /\ fs w' = <[p := File (c0 ++ concat chunks)]> (fs w)
    /\ log w' = log w.
Proof.
  induction chunks as [|buf rest IH]; intros bw ck w c0 bw' ck' w' Hl H.
  - cbn in H. destruct end_exn; [discriminate|]. injection H as <- <- <-.
    cbn. rewrite !app_nil_r, insert_id by assumption.
    repeat split. lia.
  - cbn [for_each] in H. unfold bind at 1 in H. unfold add_chunk at 1 in H.
    unfold bind at 1 in H. unfold file_write in H. rewrite Hl in H.
    destruct (write_fault E (fs w) p buf) as [[en k]|]; [discriminate|].
    cbn [ret] in H.
    apply (IH _ _ _ (c0 ++ buf)%list) in H as (H1 & H2 & H3 & H4 & H5);
      [|cbn; apply lookup_insert_eq].
    cbn in *. repeat split.
    + exact H1.
    + rewrite H2, length_app. lia.
    + rewrite H3, <- app_assoc. reflexivity.
    + rewrite H4, insert_insert_eq, <- app_assoc. reflexivity.
    + exact H5.
Qed.

(** The stream raised [e] and the disk took every chunk that came
    before: the loop ends with [e] and the file holds those chunks. *)
Lemma for_each_add_chunk_stream_error (E : Env) (p : string) (e : exn)
    (chunks : list bytes) :
  (forall m buf, write_fault E m p buf = None) ->
  forall (bw : Z) (ck : md5) (w : world) (c0 : bytes),
    fs w !! p = Some (File c0) ->
    for_each chunks (Some e) (add_chunk E p) (bw, ck) w =
      (inl e, set_fs (insert p (File (c0 ++ concat chunks))) w).
Proof.
  intros Hwf. induction chunks as [|buf rest IH]; intros bw ck w c0 Hl.
  - cbn. f_equal. apply world_eq; [|reflexivity].
    cbn. now rewrite app_nil_r, insert_id.
  - cbn [for_each]. unfold bind at 1. unfold add_chunk at 1. unfold bind at 1.
    rewrite (file_write_ok E p buf c0 w Hl (Hwf _ _)). cbn [ret].
    rewrite (IH _ _ _ (c0 ++ buf)%list) by (cbn; apply lookup_insert_eq).
    f_equal. apply world_eq; [|reflexivity].
    cbn. now rewrite insert_insert_eq, <- app_assoc.
Qed.

Lemma open_wb_ok (E : Env) (p : string) (w : world) :
  fs w !! p = None ->
  open_write_fault E (fs w) p = None ->
  open_wb E p w = (inr tt, set_fs (insert p (File [])) w).
Proof. intros Hl Hf. unfold open_wb. now rewrite Hl, Hf. Qed.

(** The [try] block of [add] returned: the whole stream is in the file,
    counted and hashed. *)
Lemma add_write_ok (E : Env) (p : string) (image_file : filelike) (w : world)
    (bw : Z) (ck : md5) (w' : world) :
  fs w !! p = None ->
  add_write E p image_file w = (inr (bw, ck), w') ->
  bw = Z.of_nat (length (data image_file))
  /\ fed ck = data image_file
  /\ fs w' = <[p := File (data image_file)]> (fs w)
  /\ log w' = log w.
Proof.
  intros Hl H. unfold add_write in H. unfold bind at 1 in H.
  unfold open_wb in H. rewrite Hl in H.
  destruct (open_write_fault E (fs w) p); [discriminate|].
  apply (for_each_add_chunk_ok E p _ _ _ _ _ []) in H as (H1 & H2 & H3 & H4 & H5);
    [|cbn; apply lookup_insert_eq].
  apply chunkreadable_whole in H1. rewrite H1 in *. cbn in *.
  repeat split; try assumption. now rewrite H4, insert_insert_eq.
Qed.

Lemma add_write_stream_error (E : Env) (p : string) (image_file : filelike)
    (e : exn) (w : world) :
  fs w !! p = None ->
  open_write_fault E (fs w) p = None ->
  (forall m buf, write_fault E m p buf = None) ->
  raised (chunkreadable image_file CHUNKSIZE) = Some e ->
  add_write E p image_file w =
    (inl e, set_fs (insert p (File (concat (yields (chunkreadable image_file CHUNKSIZE))))) w).
Proof.
  intros Hl Ho Hwf Hr. unfold add_write.
  rewrite (bind_return _ _ _ _ _ (open_wb_ok E p w Hl Ho)). rewrite Hr.
  rewrite (for_each_add_chunk_stream_error E p e _ Hwf _ _ _ []) by (cbn; apply lookup_insert_eq).
  f_equal. apply world_eq; [|reflexivity]. cbn. now rewrite insert_insert_eq.
Qed.

(** *** [_delete_partial] *)

Lemma delete_partial_ok (E : Env) (p iid : string) (c : bytes) (w : world) :
  fs w !! p = Some (File c) ->
  unlink_fault E (fs w) p = None ->
  _delete_partial E p iid w = (inr tt, set_fs (delete p) w).
Proof.
  intros Hl Hf. unfold _delete_partial, try_except, os_unlink. now rewrite Hl, Hf.
Qed.

Lemma delete_partial_fails (E : Env) (p iid : string) (c : bytes) (en : Z) (w : world) :
  fs w !! p = Some (File c) ->
  unlink_fault E (fs w) p = Some en ->
  _delete_partial E p iid w =
    (inr tt,
     add_log (LogEntry ERROR "Unable to remove partial image data for image %s: %s"
                [AStr iid; AExn (OSError (Some en))]) w).
Proof.
  intros Hl Hf. unfold _delete_partial, try_except, os_unlink. now rewrite Hl, Hf.
Qed.

(** A failed [unlink] never escapes [_delete_partial]. *)
Lemma delete_partial_returns (E : Env) (p iid : string) (w : world) :
  exists w', _delete_partial E p iid w = (inr tt, w').
Proof.
  unfold _delete_partial, try_except, os_unlink.
  destruct (fs w !! p) as [[c|]|]; try (eexists; reflexivity).
  destruct (unlink_fault E (fs w) p); eexists; reflexivity.
Qed.

(** *** The [errors] dictionary *)

Lemma errors_get_other (en : Z) (e : exn) :
  en <> errno.EACCES -> en <> errno.ENOSPC -> en <> errno.EFBIG ->
  errors_get (Some en) e = e.
Proof.
  intros H1 H2 H3. unfold errors_get, errors.
  rewrite !lookup_insert_ne, lookup_empty by congruence. reflexivity.
Qed.

(** *** [add], step by step *)

Lemma add_unfold (E : Env) (self : Store) (image_id : string) (image_file : filelike)
    (image_size : Z) (w : world) (p : string) :
  os_path_join (datadir self) image_id = inr p ->
  add E self image_id image_file image_size w =
    match fs w !! p with
    | Some _ => (inl (Duplicate p), w)
    | None =>
        (let* (bytes_written, checksum) :=
           try_except (add_write E p image_file) (add_handlers E p image_id) in
         let checksum_hex := md5_hexdigest E (fed checksum) in
         let* metadata := _get_metadata E self in
         LOGw DEBUG "Wrote %(bytes_written)d bytes to %(filepath)s with checksum %(checksum_hex)s"
              [AInt bytes_written; AStr p; AStr checksum_hex] ;;;
         ret [VStr ("file://" +:+ p); VInt bytes_written;
              VStr checksum_hex; VMeta metadata]) w
    end.
Proof.
  intros Hj. unfold add. unfold bind at 1. rewrite Hj.
  unfold bind at 1. unfold os_path_exists, gets.
  destruct (fs w !! p); reflexivity.
Qed.

(** The handlers of [add] always end in an exception. *)
Lemma add_handlers_raise (E : Env) (p iid : string) (e : exn) (w : world) :
  exists e' w', add_handlers E p iid e w = (inl e', w').
Proof.
  unfold add_handlers.
  destruct e as [en| | | | | | | | | | |];
    try (destruct (delete_partial_returns E p iid w) as [w' H];
         rewrite (bind_return _ _ _ _ _ H); eexists _, _; reflexivity).
  destruct (negb (bool_decide (en = Some errno.EACCES))).
  - destruct (delete_partial_returns E p iid w) as [w' H].
    rewrite (bind_return _ _ _ _ _ H). eexists _, _; reflexivity.
  - eexists _, _. reflexivity.
Qed.

(** What a normal return of [add] tells. *)
Lemma add_ok_inv (E : Env) (self : Store) (image_id : string) (image_file : filelike)
    (image_size : Z) (w : world) (r : list pyval) (w' : world) :
  add E self image_id image_file image_size w = (inr r, w') ->
  exists p w1 m,
    os_path_join (datadir self) image_id = inr p
    /\ fs w !! p = None
    /\ fs w1 = <[p := File (data image_file)]> (fs w)
    /\ log w1 = log w
    /\ (_get_metadata E self w1).1 = inr m
    /\ fs w' = fs w1
    /\ r = [VStr ("file://" +:+ p);
            VInt (Z.of_nat (length (data image_file)));
            VStr (md5_hexdigest E (data image_file));
            VMeta m].
Proof.
  intros H.
  destruct (os_path_join (datadir self) image_id) as [e|p] eqn:Hj.
  { unfold add in H. unfold bind at 1 in H. rewrite Hj in H. discriminate. }
  rewrite (add_unfold E self image_id image_file image_size w p Hj) in H.
  destruct (fs w !! p) eqn:Hl; [discriminate|].
  unfold bind at 1 in H.
  destruct (try_except _ _ w) as [[e|[bw ck]] w1] eqn:Ht; [discriminate|].
  unfold try_except in Ht.
  destruct (add_write E p image_file w) as [[e|[bw0 ck0]] w0] eqn:Hw.
  { destruct (add_handlers_raise E p image_id e w0) as (e' & w2 & Hh).
    rewrite Hh in Ht. discriminate. }
  injection Ht as <- <- <-.
  apply add_write_ok in Hw as (H1 & H2 & H3 & H4); [|exact Hl].
  destruct (get_metadata_returns E self w0) as (m & w2 & Hm & Hfs).
  unfold bind at 1 in H. rewrite Hm in H. cbn in H. injection H as <- <-.
  exists p, w0, m. rewrite Hm, H1, H2. cbn. repeat split; try assumption.
Qed.

(** C4.  When [add] returns, the tuple holds the URI of the target path,
    the number of bytes of the input stream, the hex digest of the whole
    input stream, and the metadata. *)
Theorem add_checksum_and_count (E : Env) (self : Store) (image_id : string)
    (image_file : filelike) (image_size : Z) (w : world)
    (r : list pyval) (w' : world) :
  add E self image_id image_file image_size w = (inr r, w') ->
  exists p m,
    os_path_join (datadir self) image_id = inr p
    /\ r = [VStr ("file://" +:+ p);
            VInt (Z.of_nat (length (data image_file)));
            VStr (md5_hexdigest E (data image_file));
            VMeta m].
Proof.
  intros H. apply add_ok_inv in H as (p & w1 & m & Hj & _ & _ & _ & _ & _ & Hr).
  exists p, m. split; assumption.
Qed.

Lemma add_checksum_and_count_witness :
  exists p m,
    os_path_join (datadir Demo.store_md) "img" = inr p
    /\ [VStr "file:///data/img"; VInt 5; VStr "68656c6c6f";
        VMeta (JDict [("k", JStr "v")])] =
       [VStr ("file://" +:+ p);
        VInt (Z.of_nat (length (data (Demo.whole "hello"))));
        VStr (md5_hexdigest Demo.quiet (data (Demo.whole "hello")));
        VMeta m].
Proof.
  refine (add_checksum_and_count Demo.quiet Demo.store_md "img" (Demo.whole "hello") 5
            Demo.w0 _ (add Demo.quiet Demo.store_md "img" (Demo.whole "hello") 5 Demo.w0).2 _).
  vm_compute. reflexivity.
Defined.

(** C3.  When something already exists at the target path, [add] raises
    [Duplicate] and the world is exactly as before: nothing was opened,
    written or logged.  In particular, after an [add] that returned, the
    file holds the bytes of that call, and any further [add] with the
    same id raises [Duplicate] and leaves them alone. *)
Theorem add_duplicate (E : Env) (self : Store) (image_id : string) (p : string)
    (image_file : filelike) (image_size : Z) (w : world) :
  os_path_join (datadir self) image_id = inr p ->
  (is_Some (fs w !! p) ->
   add E self image_id image_file image_size w = (inl (Duplicate p), w))
  /\ (forall r w1,
        add E self image_id image_file image_size w = (inr r, w1) ->
        fs w1 !! p = Some (File (data image_file))
        /\ forall image_file2 image_size2,
             add E self image_id image_file2 image_size2 w1 = (inl (Duplicate p), w1)).
Proof.
  intros Hj. split.
  - intros [n Hn]. rewrite (add_unfold E self image_id image_file image_size w p Hj).
    now rewrite Hn.
  - intros r w1 H.
    apply add_ok_inv in H as (p' & w0 & m & Hj' & _ & Hfs & _ & _ & Hfs' & _).
    assert (p' = p) as -> by congruence.
    assert (Hl : fs w1 !! p = Some (File (data image_file))).
    { rewrite Hfs', Hfs. apply lookup_insert_eq. }
    split; [exact Hl|]. intros f2 sz2.
    rewrite (add_unfold E self image_id f2 sz2 w1 p Hj). now rewrite Hl.
Qed.

Lemma add_duplicate_witness :
  is_Some (fs Demo.w1 !! "/data/img")
  /\ add Demo.quiet Demo.store "img" (Demo.whole "other") 5 Demo.w1 =
       (inl (Duplicate "/data/img"), Demo.w1).
Proof.
  assert (H : is_Some (fs Demo.w1 !! "/data/img")).
  { exists (File (Demo.b "hello")). vm_compute. reflexivity. }
  split; [exact H|].
  refine (proj1 (add_duplicate Demo.quiet Demo.store "img" "/data/img"
                   (Demo.whole "other") 5 Demo.w1 _) H).
  reflexivity.
Defined.

(** ** Reading an image back *)

Lemma location_of_path (p : string) :
  path (store_location (location_of p)) = Some p.
Proof. cbn. apply lookup_insert_eq. Qed.

Lemma resolve_location_at_file (E : Env) (location : Location) (p : string)
    (c : bytes) (w : world) :
  path (store_location location) = Some p ->
  fs w !! p = Some (File c) ->
  _resolve_location E location w = (inr (p, Z.of_nat (length c)), w).
Proof.
  intros Hp Hl. unfold _resolve_location. rewrite Hp.
  unfold bind, os_path_exists, gets, os_path_getsize. rewrite Hl. cbn.
  rewrite Hl. reflexivity.
Qed.

(** Iterating over a freshly opened [ChunkedFile] yields the file's
    content, ends without an exception and closes the file. *)
Lemma ChunkedFile_iter_whole (p : string) (c : bytes) :
  let cf := {| filepath := p; fp := Some {| data := c; fault := None |} |} in
  raised (ChunkedFile_iter cf).1 = None
  /\ concat (yields (ChunkedFile_iter cf).1) = c
  /\ fp (ChunkedFile_iter cf).2 = None.
Proof.
  cbv zeta. unfold ChunkedFile_iter. cbn [fp data].
  destruct (read_chunks_split (S (length c)) CHUNKSIZE {| data := c; fault := None |}
              CHUNKSIZE_pos (Nat.lt_succ_diag_r _)) as (H1 & H2 & H3).
  destruct (read_chunks _ _ _) as [g f']. cbn in *.
  specialize (H3 eq_refl). specialize (H2 H3).
  rewrite H2, app_nil_r in H1. auto.
Qed.

(** [get] on a location whose path names a regular file. *)
Lemma get_at_file (E : Env) (self : Store) (location : Location) (p : string)
    (c : bytes) (w : world) :
  path (store_location location) = Some p ->
  fs w !! p = Some (File c) ->
  get E self location w =
    match open_read_fault E (fs w) p with
    | Some en =>
        (inl (IOError (Some en)),
         add_log (LogEntry DEBUG "Found image at %s. Returning in ChunkedFile." [AStr p]) w)
    | None =>
        (inr [VChunked {| filepath := p; fp := Some {| data := c; fault := None |} |};
              VInt (Z.of_nat (length c))],
         add_log (LogEntry DEBUG "Found image at %s. Returning in ChunkedFile." [AStr p]) w)
    end.
Proof.
  intros Hp Hl. unfold get.
  rewrite (bind_return _ _ _ _ _ (resolve_location_at_file E location p c w Hp Hl)).
  unfold bind, LOGw, LOG, modify, ChunkedFile_init, bind, open_rb. cbn.
  rewrite Hl. destruct (open_read_fault E (fs w) p); reflexivity.
Qed.

(** The location that [get_location_from_uri] builds when [parse_uri]
    goes through. *)
Lemma get_location_from_uri_ok (E : Env) (uri : string) (pieces : ParseResult)
    (w : world) :
  urlparse E uri = inr pieces ->
  pr_scheme pieces = "file" \/ pr_scheme pieces = "filesystem" ->
  strip (pr_netloc pieces +:+ pr_path pieces) <> "" ->
  get_location_from_uri E uri w =
    (inr {| store_location :=
              {| scheme := pr_scheme pieces;
                 path := Some (strip (pr_netloc pieces +:+ pr_path pieces)) |} |}, w).
Proof.
  intros Hu Hs Hne. unfold get_location_from_uri.
  rewrite (parse_uri_unfold E uri pieces _ w Hu).
  apply str_in_schemes in Hs. rewrite Hs. cbn [negb].
  destruct (String.eqb_spec (strip (pr_netloc pieces +:+ pr_path pieces)) "");
    [contradiction|reflexivity].
Qed.

(** C1 (as stated) fails when the location is the one parsed from the
    URI that [add] returns: the id [img ] is stored under [/data/img ],
    the URI parses to the path [/data/img], and [get_size] and [get]
    raise [NotFound]. *)
Lemma add_then_get_by_uri_not_found :
  exists w1 location,
    add Demo.quiet Demo.store "img " (Demo.whole "hello") 5 Demo.w0 =
      (inr [VStr "file:///data/img "; VInt 5; VStr "68656c6c6f"; VMeta (JDict [])], w1)
    /\ get_location_from_uri Demo.quiet "file:///data/img " w1 = (inr location, w1)
    /\ path (store_location location) = Some "/data/img"
    /\ (get_size Demo.quiet Demo.store location w1).1 = inl (NotFound "/data/img")
    /\ (get Demo.quiet Demo.store location w1).1 = inl (NotFound "/data/img").
Proof.
  eexists _, _. split; [vm_compute; reflexivity|].
  split; [vm_compute; reflexivity|].
  split; [reflexivity|]. split; vm_compute; reflexivity.
Qed.

(** C1 (as amended).  After an [add] that returned, on every location
    whose path is the target path [get_size] returns the number of input
    bytes, every [get] that returns hands out a chunk sequence whose
    concatenation is the input, with that same size, and [get] does
    return unless the system refuses to open the file for reading.  The
    location parsed from the URI that [add] returned is such a location
    whenever the trimmed host+path component of that URI is the target
    path. *)
Theorem add_then_get_at_target (E : Env) (self : Store) (image_id : string)
    (image_file : filelike) (image_size : Z) (w : world)
    (r : list pyval) (w1 : world) :
  add E self image_id image_file image_size w = (inr r, w1) ->
  exists p,
    os_path_join (datadir self) image_id = inr p
    /\ head r = Some (VStr ("file://" +:+ p))
    /\ (forall location,
          path (store_location location) = Some p ->
          (get_size E self location w1).1 = inr (Z.of_nat (length (data image_file)))
          /\ (forall res w2,
                get E self location w1 = (inr res, w2) ->
                exists cf,
                  res = [VChunked cf; VInt (Z.of_nat (length (data image_file)))]
                  /\ raised (ChunkedFile_iter cf).1 = None
                  /\ concat (yields (ChunkedFile_iter cf).1) = data image_file)
          /\ (open_read_fault E (fs w1) p = None ->
              exists res w2, get E self location w1 = (inr res, w2)))
    /\ (forall pieces,
          urlparse E ("file://" +:+ p) = inr pieces ->
          pr_scheme pieces = "file" \/ pr_scheme pieces = "filesystem" ->
          strip (pr_netloc pieces +:+ pr_path pieces) = p ->
          p <> "" ->
          exists location,
            get_location_from_uri E ("file://" +:+ p) w1 = (inr location, w1)
            /\ path (store_location location) = Some p).
Proof.
  intros H.
  apply add_ok_inv in H as (p & w0 & m & Hj & _ & Hfs & _ & _ & Hfs' & ->).
  assert (Hl : fs w1 !! p = Some (File (data image_file))).
  { rewrite Hfs', Hfs. apply lookup_insert_eq. }
  exists p. split; [exact Hj|]. split; [reflexivity|]. split.
  - intros location Hp. split; [|split].
    + unfold get_size.
      rewrite (bind_return _ _ _ _ _ (resolve_location_at_file E location p _ w1 Hp Hl)).
      reflexivity.
    + intros res w2. rewrite (get_at_file E self location p _ w1 Hp Hl).
      destruct (open_read_fault E (fs w1) p); [discriminate|].
      intros [= <- <-]. eexists. split; [reflexivity|].
      destruct (ChunkedFile_iter_whole p (data image_file)) as (H1 & H2 & _). auto.
    + intros Ho. rewrite (get_at_file E self location p _ w1 Hp Hl), Ho. eauto.
  - intros pieces Hu Hs Hst Hne.
    rewrite (get_location_from_uri_ok E _ pieces w1 Hu Hs) by congruence.
    eexists. split; [reflexivity|]. cbn. now rewrite Hst.
Qed.

Lemma add_then_get_at_target_witness :
  exists p,
    os_path_join (datadir Demo.store) "img" = inr p
    /\ (get_size Demo.quiet Demo.store (location_of p)
          (add Demo.quiet Demo.store "img" (Demo.whole "hello") 5 Demo.w0).2).1 =
       inr (Z.of_nat (length (data (Demo.whole "hello")))).
Proof.
  destruct (add_then_get_at_target Demo.quiet Demo.store "img" (Demo.whole "hello") 5 Demo.w0
              [VStr "file:///data/img"; VInt 5; VStr "68656c6c6f"; VMeta (JDict [])]
              (add Demo.quiet Demo.store "img" (Demo.whole "hello") 5 Demo.w0).2)
    as (p & Hj & _ & Hs & _).
  - vm_compute. reflexivity.
  - exists p. split; [exact Hj|]. exact (proj1 (Hs (location_of p) (location_of_path p))).
Defined.

(** ** Failures while writing *)

(** Once the [try] block of [add] has failed with [e] in world [w1],
    [add] is what the handlers do there. *)
Lemma add_failed_write (E : Env) (self : Store) (image_id : string)
    (image_file : filelike) (image_size : Z) (w : world) (p : string)
    (e : exn) (w1 : world) (e' : exn) (w2 : world) :
  os_path_join (datadir self) image_id = inr p ->
  fs w !! p = None ->
  add_write E p image_file w = (inl e, w1) ->
  add_handlers E p image_id e w1 = (inl e', w2) ->
  add E self image_id image_file image_size w = (inl e', w2).
Proof.
  intros Hj Hl Hw Hh.
  rewrite (add_unfold E self image_id image_file image_size w p Hj), Hl.
  apply bind_raise. rewrite (try_except_raise _ _ _ _ _ Hw). exact Hh.
Qed.

(** The handlers when the partial file is to be removed: the reported
    exception does not depend on how the [unlink] goes. *)
Lemma cleanup_then_raise (E : Env) (p iid : string) (c : bytes) (e' : exn) (w1 : world) :
  fs w1 !! p = Some (File c) ->
  (unlink_fault E (fs w1) p = None ->
   (_delete_partial E p iid ;;; raise (A := Z * md5) e') w1 =
     (inl e', set_fs (delete p) w1))
  /\ (forall en, unlink_fault E (fs w1) p = Some en ->
      (_delete_partial E p iid ;;; raise (A := Z * md5) e') w1 =
        (inl e',
         add_log (LogEntry ERROR "Unable to remove partial image data for image %s: %s"
                    [AStr iid; AExn (OSError (Some en))]) w1)).
Proof.
  intros Hl. split.
  - intros Hu. now rewrite (bind_return _ _ _ _ _ (delete_partial_ok E p iid c w1 Hl Hu)).
  - intros en Hu.
    now rewrite (bind_return _ _ _ _ _ (delete_partial_fails E p iid c en w1 Hl Hu)).
Qed.

(** C2.  The input stream raises [e] while [add] is writing (the file
    was opened and every chunk read so far was written).  If [e] is an
    [IOError] with [EACCES], [add] raises [StorageWriteDenied] and the
    partial file stays.  If [e] is an [IOError] with [ENOSPC] or [EFBIG],
    [add] raises [StorageFull]; for any other [e], [add] raises [e]
    itself.  In these two cases the partial file is unlinked, which puts
    the world back as it was; if the [unlink] fails, the partial file
    stays, the failure is logged, and the exception raised is the same. *)
Theorem add_stream_failure (E : Env) (self : Store) (image_id : string)
    (image_file : filelike) (image_size : Z) (w : world) (p : string) (e : exn) :
  os_path_join (datadir self) image_id = inr p ->
  fs w !! p = None ->
  open_write_fault E (fs w) p = None ->
  (forall m buf, write_fault E m p buf = None) ->
  raised (chunkreadable image_file CHUNKSIZE) = Some e ->
  let partial := concat (yields (chunkreadable image_file CHUNKSIZE)) in
  let w1 := set_fs (insert p (File partial)) w in
  let cleaned := fun reported : exn =>
    (unlink_fault E (fs w1) p = None ->
     add E self image_id image_file image_size w = (inl reported, w))
    /\ (forall en, unlink_fault E (fs w1) p = Some en ->
        add E self image_id image_file image_size w =
          (inl reported,
           add_log (LogEntry ERROR "Unable to remove partial image data for image %s: %s"
                      [AStr image_id; AExn (OSError (Some en))]) w1)) in
  (e = IOError (Some errno.EACCES) ->
   add E self image_id image_file image_size w = (inl StorageWriteDenied, w1))
  /\ (e = IOError (Some errno.ENOSPC) \/ e = IOError (Some errno.EFBIG) ->
      cleaned StorageFull)
  /\ ((forall en, e = IOError (Some en) ->
         en <> errno.EACCES /\ en <> errno.ENOSPC /\ en <> errno.EFBIG) ->
      cleaned e).
Proof.
  intros Hj Hl Ho Hwf Hr partial w1 cleaned.
  pose proof (add_write_stream_error E p image_file e w Hl Ho Hwf Hr) as Hw.
  fold partial in Hw. fold w1 in Hw.
  assert (Hl1 : fs w1 !! p = Some (File partial)) by (cbn; apply lookup_insert_eq).
  assert (Hback : set_fs (delete p) w1 = w).
  { apply world_eq; [|reflexivity]. cbn. now rewrite delete_insert_eq, delete_id. }
  assert (Hclean : forall e',
    add_handlers E p image_id e = (_delete_partial E p image_id ;;; raise e') ->
    cleaned e').
  { intros e' Hh. unfold cleaned.
    destruct (cleanup_then_raise E p image_id partial e' w1 Hl1) as [H1 H2]. split.
    - intros Hu.
      apply (add_failed_write E self image_id image_file image_size w p e w1); auto.
      rewrite Hh, (H1 Hu), Hback. reflexivity.
    - intros en Hu.
      apply (add_failed_write E self image_id image_file image_size w p e w1); auto.
      rewrite Hh. apply (H2 en Hu). }
  split; [|split].
  - intros ->.
    apply (add_failed_write E self image_id image_file image_size w p
             (IOError (Some errno.EACCES)) w1); auto.
  - intros [-> | ->]; apply Hclean; reflexivity.
  - intros Hgen. apply Hclean.
    destruct e as [[en|]| | | | | | | | | | |]; try reflexivity.
    destruct (Hgen en eq_refl) as (H1 & H2 & H3).
    unfold add_handlers. rewrite errors_get_other by assumption.
    rewrite bool_decide_eq_false_2 by congruence. reflexivity.
Qed.

Lemma add_stream_failure_witness :
  add Demo.quiet Demo.store "img" (Demo.broken (IOError (Some errno.ENOSPC))) 10 Demo.w0 =
    (inl StorageFull, Demo.w0).
Proof.
  refine (proj1 (proj1 (proj2
            (add_stream_failure Demo.quiet Demo.store "img"
               (Demo.broken (IOError (Some errno.ENOSPC))) 10 Demo.w0 "/data/img"
               (IOError (Some errno.ENOSPC)) _ _ _ _ _))
            (or_introl eq_refl)) _).
  - reflexivity.
  - vm_compute. reflexivity.
  - reflexivity.
  - intros m buf. reflexivity.
  - vm_compute. reflexivity.
  - reflexivity.
Defined.

(** ** What [get] returns *)

(** C9 (as stated) fails: with a valid metadata file configured, [get]
    returns a pair that does not contain the loaded document. *)
Lemma get_result_lacks_metadata :
  (_get_metadata Demo.quiet Demo.store_md Demo.w1).1 = inr (JDict [("k", JStr "v")])
  /\ exists cf,
       (get Demo.quiet Demo.store_md (location_of "/data/img") Demo.w1).1 =
         inr [VChunked cf; VInt 5]
       /\ ~ In (VMeta (JDict [("k", JStr "v")])) [VChunked cf; VInt 5].
Proof.
  split; [vm_compute; reflexivity|].
  eexists. split; [vm_compute; reflexivity|].
  intros [H|[H|[]]]; discriminate.
Qed.

Lemma get_ok_inv (E : Env) (self : Store) (location : Location) (w : world)
    (res : list pyval) (w' : world) :
  get E self location w = (inr res, w') ->
  exists cf size, res = [VChunked cf; VInt size].
Proof.
  unfold get. unfold bind at 1.
  destruct (_resolve_location E location w) as [[e|[p size]] w1]; [discriminate|].
  unfold bind at 1. cbn. unfold bind at 1.
  destruct (ChunkedFile_init E p _) as [[e|cf] w2]; [discriminate|].
  cbn. intros [= <- _]. eauto.
Qed.

(** C9 (as amended).  A [get] that returns hands out exactly the pair
    of the chunk sequence and the size: no component is a metadata
    document, and the result does not depend on the store's
    configuration.  The metadata document is part of what [add] returns:
    its last component is what the loader returns once the file is
    written. *)
Theorem get_returns_pair (E : Env) (self : Store) (location : Location) (w : world)
    (res : list pyval) (w' : world) :
  get E self location w = (inr res, w') ->
  (exists cf size, res = [VChunked cf; VInt size])
  /\ (forall m, ~ In (VMeta m) res)
  /\ (forall self', get E self' location w = (inr res, w'))
  /\ (forall image_id image_file image_size w0 r w1,
        add E self image_id image_file image_size w0 = (inr r, w1) ->
        exists m w2,
          last r = Some (VMeta m)
          /\ fs w2 = fs w1
          /\ (_get_metadata E self w2).1 = inr m).
Proof.
  intros H. split; [|split; [|split]].
  - eapply get_ok_inv, H.
  - apply get_ok_inv in H as (cf & size & ->).
    intros m [Hm|[Hm|[]]]; discriminate.
  - intros self'. exact H.
  - intros image_id image_file image_size w0 r w1 Ha.
    apply add_ok_inv in Ha as (p & w2 & m & _ & _ & _ & _ & Hm & Hfs & ->).
    exists m, w2. auto.
Qed.

Lemma get_returns_pair_witness :
  exists cf size,
    [VChunked {| filepath := "/data/img";
                 fp := Some {| data := Demo.b "hello"; fault := None |} |};
     VInt 5] = [VChunked cf; VInt size].
Proof.
  refine (proj1 (get_returns_pair Demo.quiet Demo.store_md (location_of "/data/img") Demo.w1
                   _ (get Demo.quiet Demo.store_md (location_of "/data/img") Demo.w1).2 _)).
  vm_compute. reflexivity.
Defined.

(** * Further properties of the driver *)

(** ** Locations that name nothing, and [delete] *)

Lemma resolve_location_missing (E : Env) (location : Location) (p : string) (w : world) :
  path (store_location location) = Some p ->
  fs w !! p = None ->
  _resolve_location E location w = (inl (NotFound p), w).
Proof.
  intros Hp Hl. unfold _resolve_location. rewrite Hp.
  unfold bind, os_path_exists, gets. now rewrite Hl.
Qed.

Lemma get_at_nothing (E : Env) (self : Store) (location : Location)
    (p : string) (w : world) :
  path (store_location location) = Some p ->
  fs w !! p = None ->
  get E self location w = (inl (NotFound p), w).
Proof.
  intros Hp Hl. unfold get. apply bind_raise.
  now apply resolve_location_missing.
Qed.

Lemma delete_at_nothing (E : Env) (self : Store) (location : Location)
    (p : string) (w : world) :
  path (store_location location) = Some p ->
  fs w !! p = None ->
  Store_delete E self location w = (inl (NotFound p), w).
Proof.
  intros Hp Hl. unfold Store_delete. rewrite Hp.
  unfold bind, os_path_exists, gets. now rewrite Hl.
Qed.

(** X1.  When nothing exists at the location's path, [get], [get_size]
    and [delete] all raise [NotFound] for that path, and neither the
    filesystem nor the log changes. *)
Theorem missing_object_not_found (E : Env) (self : Store) (location : Location)
    (p : string) (w : world) :
  path (store_location location) = Some p ->
  fs w !! p = None ->
  get E self location w = (inl (NotFound p), w)
  /\ get_size E self location w = (inl (NotFound p), w)
  /\ Store_delete E self location w = (inl (NotFound p), w).
Proof.
  intros Hp Hl.
  pose proof (resolve_location_missing E location p w Hp Hl) as Hr.
  split; [|split].
  - unfold get. now apply bind_raise.
  - unfold get_size. now apply bind_raise.
  - unfold Store_delete. rewrite Hp. unfold bind, os_path_exists, gets.
    now rewrite Hl.
Qed.

Lemma missing_object_not_found_witness :
  get Demo.quiet Demo.store (location_of "/data/none") Demo.w1 =
    (inl (NotFound "/data/none"), Demo.w1)
  /\ get_size Demo.quiet Demo.store (location_of "/data/none") Demo.w1 =
       (inl (NotFound "/data/none"), Demo.w1)
  /\ Store_delete Demo.quiet Demo.store (location_of "/data/none") Demo.w1 =
       (inl (NotFound "/data/none"), Demo.w1).
Proof.
  refine (missing_object_not_found Demo.quiet Demo.store (location_of "/data/none")
            "/data/none" Demo.w1 _ _).
  - reflexivity.
  - vm_compute. reflexivity.
Defined.

(** [delete] on a path that names something: the log entry, then the
    [unlink]. *)
Lemma delete_unfold (E : Env) (self : Store) (location : Location) (p : string)
    (n : node) (w : world) :
  path (store_location location) = Some p ->
  fs w !! p = Some n ->
  Store_delete E self location w =
    let wl := add_log (LogEntry DEBUG "Deleting image at %(fn)s" [AStr p]) w in
    match n with
    | Dir => (inl (Forbidden ("You cannot delete file " +:+ p)), wl)
    | File _ =>
        match unlink_fault E (fs w) p with
        | Some _ => (inl (Forbidden ("You cannot delete file " +:+ p)), wl)
        | None => (inr tt, set_fs (delete p) wl)
        end
    end.
Proof.
  intros Hp Hl. unfold Store_delete. rewrite Hp.
  unfold bind at 1. unfold os_path_exists, gets. rewrite Hl.
  unfold try_except, bind, LOGw, LOG, modify, os_unlink. cbn. rewrite Hl.
  destruct n as [c|]; [|reflexivity].
  destruct (unlink_fault E (fs w) p); reflexivity.
Qed.

(** X2.  Deleting a stored file that the system lets go removes exactly
    that path: the call returns, the path is gone, every other path is as
    before, and a following [get] raises [NotFound]. *)
Theorem delete_removes_file (E : Env) (self : Store) (location : Location)
    (p : string) (c : bytes) (w : world) :
  path (store_location location) = Some p ->
  fs w !! p = Some (File c) ->
  unlink_fault E (fs w) p = None ->
  exists w',
    Store_delete E self location w = (inr tt, w')
    /\ fs w' = delete p (fs w)
    /\ (forall q, q <> p -> fs w' !! q = fs w !! q)
    /\ get E self location w' = (inl (NotFound p), w').
Proof.
  intros Hp Hl Hu. rewrite (delete_unfold E self location p _ w Hp Hl), Hu.
  cbv zeta. eexists. split; [reflexivity|]. split; [reflexivity|]. split.
  - intros q Hq. cbn. now apply lookup_delete_ne.
  - apply get_at_nothing; [exact Hp|]. cbn. apply lookup_delete_eq.
Qed.

Lemma delete_removes_file_witness :
  exists w',
    Store_delete Demo.quiet Demo.store (location_of "/data/img") Demo.w1 = (inr tt, w')
    /\ fs w' = delete "/data/img" (fs Demo.w1)
    /\ (forall q, q <> "/data/img" -> fs w' !! q = fs Demo.w1 !! q)
    /\ get Demo.quiet Demo.store (location_of "/data/img") w' =
         (inl (NotFound "/data/img"), w').
Proof.
  refine (delete_removes_file Demo.quiet Demo.store (location_of "/data/img")
            "/data/img" (Demo.b "hello") Demo.w1 _ _ _).
  - reflexivity.
  - vm_compute. reflexivity.
  - reflexivity.
Defined.

(** X3.  For a location with a path, [delete] raises nothing but
    [NotFound] and [Forbidden], and whenever it raises, the filesystem is
    as before: a refused [unlink] leaves the file in place. *)
Theorem delete_raises_only (E : Env) (self : Store) (location : Location)
    (p : string) (w : world) (e : exn) (w' : world) :
  path (store_location location) = Some p ->
  Store_delete E self location w = (inl e, w') ->
  (e = NotFound p \/ e = Forbidden ("You cannot delete file " +:+ p))
  /\ fs w' = fs w.
Proof.
  intros Hp H. destruct (fs w !! p) as [n|] eqn:Hl.
  - rewrite (delete_unfold E self location p n w Hp Hl) in H. cbv zeta in H.
    destruct n as [c|].
    + destruct (unlink_fault E (fs w) p); [|discriminate].
      injection H as <- <-. auto.
    + injection H as <- <-. auto.
  - rewrite (delete_at_nothing E self location p w Hp Hl) in H.
    injection H as <- <-. auto.
Qed.

Lemma delete_raises_only_witness :
  (Forbidden "You cannot delete file /data/img" = NotFound "/data/img"
   \/ Forbidden "You cannot delete file /data/img" =
        Forbidden ("You cannot delete file " +:+ "/data/img"))
  /\ fs (Store_delete (Demo.env None None None (Some errno.EACCES) MkCreated)
           Demo.store (location_of "/data/img") Demo.w1).2 = fs Demo.w1.
Proof.
  refine (delete_raises_only (Demo.env None None None (Some errno.EACCES) MkCreated)
            Demo.store (location_of "/data/img") "/data/img" Demo.w1 _ _ _ _).
  - reflexivity.
  - vm_compute. reflexivity.
Defined.

(** X4.  [get] and [get_size] only read: whatever the location and
    whatever the outcome, the filesystem afterwards is the one before. *)
Theorem get_read_only (E : Env) (self : Store) (location : Location) (w : world) :
  fs (get E self location w).2 = fs w
  /\ fs (get_size E self location w).2 = fs w.
Proof.
  assert (Hr : fs (_resolve_location E location w).2 = fs w
               /\ log (_resolve_location E location w).2 = log w).
  { unfold _resolve_location. destruct (path (store_location location)) as [p|];
      [|split; reflexivity].
    unfold bind, os_path_exists, gets, os_path_getsize.
    destruct (fs w !! p) as [[c|]|] eqn:Hl; cbn; rewrite ?Hl; split; reflexivity. }
  destruct Hr as [Hr _]. split.
  - unfold get. unfold bind at 1.
    destruct (_resolve_location E location w) as [[e|[p size]] w1]; [exact Hr|].
    cbn in Hr. unfold bind, LOGw, LOG, modify, ChunkedFile_init, bind, open_rb. cbn.
    destruct (fs w1 !! p) as [[c|]|]; try exact Hr.
    destruct (open_read_fault E (fs w1) p); exact Hr.
  - unfold get_size. unfold bind at 1.
    destruct (_resolve_location E location w) as [[e|[p size]] w1]; exact Hr.
Qed.

(** ** The shape of the chunk sequence *)

Lemma read_chunks_nonempty (fuel n : nat) (fp : filelike) :
  yields (read_chunks fuel n fp).1 <> [] -> data fp <> [].
Proof.
  destruct fuel as [|fuel]; [cbn; congruence|]. cbn [read_chunks].
  destruct (read n fp) as [[e|chunk] fp1] eqn:Hr; [cbn; congruence|].
  apply read_ok in Hr as (Hc & _ & _).
  destruct chunk as [|b chunk]; [cbn; congruence|].
  intros _ Hd. rewrite Hd in Hc. now rewrite take_nil in Hc.
Qed.

(** Every chunk is non-empty and at most [n] long, and a chunk that is
    followed by another one is exactly [n] long. *)
Lemma read_chunks_sizes (fuel n : nat) (fp : filelike) :
  Forall (fun c => (0 < length c <= n)%nat) (yields (read_chunks fuel n fp).1)
  /\ (forall pre c post,
        yields (read_chunks fuel n fp).1 = (pre ++ c :: post)%list ->
        post <> [] -> length c = n).
Proof.
  revert fp. induction fuel as [|fuel IH]; intros fp.
  - cbn. split; [constructor|]. intros [|? ?] ? ?; discriminate.
  - cbn [read_chunks].
    destruct (read n fp) as [[e|chunk] fp1] eqn:Hr.
    { cbn. split; [constructor|]. intros [|? ?] ? ?; discriminate. }
    apply read_ok in Hr as (Hc & Hd & _).
    destruct chunk as [|b chunk].
    { cbn. split; [constructor|]. intros [|? ?] ? ?; discriminate. }
    destruct (IH fp1) as [IH1 IH2].
    pose proof (read_chunks_nonempty fuel n fp1) as Hne.
    destruct (read_chunks fuel n fp1) as [g fp2]. cbn [fst snd yields] in *.
    split.
    + constructor; [|exact IH1]. rewrite Hc, length_take.
      assert (length (take n (data fp)) <> 0)%nat by (rewrite <- Hc; cbn; lia).
      rewrite length_take in H. lia.
    + intros [|c0 pre] c post Heq Hpost.
      * cbn in Heq. injection Heq as <- <-.
        specialize (Hne Hpost). rewrite Hd in Hne.
        rewrite Hc, length_take.
        destruct (Nat.le_gt_cases (length (data fp)) n) as [Hle|Hgt]; [|lia].
        exfalso. apply Hne. now apply drop_ge.
      * cbn in Heq. injection Heq as _ Heq. eapply IH2; eassumption.
Qed.

(** X5.  The chunks that iterating a [ChunkedFile] yields, and the chunks
    that [add] takes from its input, are all non-empty and at most
    [CHUNKSIZE] bytes long, and every chunk but the last is exactly
    [CHUNKSIZE] bytes long. *)
Theorem chunks_are_bounded (cf : ChunkedFile) (image_file : filelike) :
  let sized := fun ys : list bytes =>
    Forall (fun c => (0 < length c <= CHUNKSIZE)%nat) ys
    /\ (forall pre c post, ys = (pre ++ c :: post)%list -> post <> [] ->
          length c = CHUNKSIZE) in
  sized (yields (ChunkedFile_iter cf).1)
  /\ sized (yields (chunkreadable image_file CHUNKSIZE)).
Proof.
  cbv zeta. split.
  - unfold ChunkedFile_iter. destruct (fp cf) as [f|].
    + pose proof (read_chunks_sizes (S (length (data f))) CHUNKSIZE f) as H.
      destruct (read_chunks _ _ f) as [g f']. exact H.
    + cbn. split; [constructor|]. intros [|? ?] ? ?; discriminate.
  - unfold chunkreadable. apply read_chunks_sizes.
Qed.

(** X6.  A [ChunkedFile] cannot be restarted: iterating closes it
    whatever happens, iterating it again yields nothing, and closing is
    idempotent. *)
Theorem ChunkedFile_single_pass (cf : ChunkedFile) :
  fp (ChunkedFile_iter cf).2 = None
  /\ ChunkedFile_iter (ChunkedFile_iter cf).2 =
       ({| yields := []; raised := None |}, (ChunkedFile_iter cf).2)
  /\ ChunkedFile_close (ChunkedFile_close cf) = ChunkedFile_close cf
  /\ filepath (ChunkedFile_iter cf).2 = filepath cf.
Proof.
  assert (H : fp (ChunkedFile_iter cf).2 = None
              /\ filepath (ChunkedFile_iter cf).2 = filepath cf).
  { unfold ChunkedFile_iter. destruct (fp cf) as [f|] eqn:Hf.
    - destruct (read_chunks _ _ f) as [g f']. cbn. auto.
    - cbn. unfold ChunkedFile_close. rewrite Hf. auto. }
  destruct H as [H1 H2]. split; [exact H1|]. split; [|split; [|exact H2]].
  - unfold ChunkedFile_iter at 1. rewrite H1. unfold ChunkedFile_close.
    now rewrite H1.
  - unfold ChunkedFile_close. destruct (fp cf) eqn:Hf; cbn; [reflexivity|].
    now rewrite Hf.
Qed.

(** ** The metadata loader, when all goes well *)

(** X7.  When the configured metadata file can be opened, parses and
    passes the shape check, [_get_metadata] returns the parsed document
    itself and changes nothing, not even the log. *)
Theorem get_metadata_loads (E : Env) (self : Store) (f : string) (c : bytes)
    (j : json) (w : world) :
  filesystem_store_metadata_file (conf self) = Some f ->
  fs w !! f = Some (File c) ->
  open_read_fault E (fs w) f = None ->
  jsonutils_load E c = inr j ->
  check_location_metadata E j = None ->
  _get_metadata E self w = (inr j, w).
Proof.
  intros Hf Hl Ho Hj Hc. unfold _get_metadata. rewrite Hf.
  apply try_except_return.
  unfold load_metadata_file, bind, open_rb. rewrite Hl, Ho. cbn.
  now rewrite Hj, Hc.
Qed.

Lemma get_metadata_loads_witness :
  _get_metadata Demo.quiet Demo.store_md Demo.w0 =
    (inr (JDict [("k", JStr "v")]), Demo.w0).
Proof.
  refine (get_metadata_loads Demo.quiet Demo.store_md "/etc/md.json"
            (Demo.b "{'k': 'v'}") (JDict [("k", JStr "v")]) Demo.w0 _ _ _ _ _).
  - reflexivity.
  - vm_compute. reflexivity.
  - reflexivity.
  - vm_compute. reflexivity.
  - reflexivity.
Defined.

(** ** Reading any stored file *)

(** X8.  For any location whose path names a regular file that can be
    opened, [get] returns a chunk sequence and a size such that the
    chunks concatenate to the file's content, the iteration ends without
    an exception, and the size is the content's length, which is also
    what [get_size] returns. *)
Theorem get_reads_file (E : Env) (self : Store) (location : Location)
    (p : string) (c : bytes) (w : world) :
  path (store_location location) = Some p ->
  fs w !! p = Some (File c) ->
  open_read_fault E (fs w) p = None ->
  exists cf w',
    get E self location w = (inr [VChunked cf; VInt (Z.of_nat (length c))], w')
    /\ filepath cf = p
    /\ concat (yields (ChunkedFile_iter cf).1) = c
    /\ raised (ChunkedFile_iter cf).1 = None
    /\ (get_size E self location w).1 = inr (Z.of_nat (length c)).
Proof.
  intros Hp Hl Ho.
  assert (Hr : _resolve_location E location w = (inr (p, Z.of_nat (length c)), w)).
  { unfold _resolve_location. rewrite Hp.
    unfold bind, os_path_exists, gets, os_path_getsize. rewrite Hl. cbn.
    now rewrite Hl. }
  destruct (ChunkedFile_iter_whole p c) as (H1 & H2 & _).
  exists {| filepath := p; fp := Some {| data := c; fault := None |} |}.
  eexists. split; [|split; [reflexivity|split; [exact H2|split; [exact H1|]]]].
  - unfold get. rewrite (bind_return _ _ _ _ _ Hr).
    unfold bind, LOGw, LOG, modify, ChunkedFile_init, bind, open_rb. cbn.
    rewrite Hl, Ho. reflexivity.
  - unfold get_size. rewrite (bind_return _ _ _ _ _ Hr). reflexivity.
Qed.

Lemma get_reads_file_witness :
  exists cf w',
    get Demo.quiet Demo.store (location_of "/data/img") Demo.w1 =
      (inr [VChunked cf; VInt (Z.of_nat (length (Demo.b "hello")))], w')
    /\ filepath cf = "/data/img"
    /\ concat (yields (ChunkedFile_iter cf).1) = Demo.b "hello"
    /\ raised (ChunkedFile_iter cf).1 = None
    /\ (get_size Demo.quiet Demo.store (location_of "/data/img") Demo.w1).1 =
         inr (Z.of_nat (length (Demo.b "hello"))).
Proof.
  refine (get_reads_file Demo.quiet Demo.store (location_of "/data/img")
            "/data/img" (Demo.b "hello") Demo.w1 _ _ _).
  - reflexivity.
  - vm_compute. reflexivity.
  - reflexivity.
Defined.

(** ** What [configure_add] leaves alone *)

(** What a run of [makedirs] on the missing path [d] does to the
    filesystem. *)
Lemma makedirs_fs (ps : list string) (d : string) (m : gmap string node) (leaf : bool) :
  (forall q, q ∈ ps -> q ∈ ancestors d) ->
  m !! d = None ->
  let m' := if leaf then <[d := Dir]> (mkdir_all ps m) else mkdir_all ps m in
  (forall q n, m !! q = Some n -> m' !! q = Some n)
  /\ (forall q, m !! q = None -> is_Some (m' !! q) ->
        m' !! q = Some Dir /\ (q = d \/ q ∈ ancestors d)).
Proof.
  intros Hps Hd. cbv zeta. split.
  - intros q n Hq.
    assert (Hm : mkdir_all ps m !! q = Some n) by (now rewrite mkdir_all_lookup, Hq).
    destruct leaf; [|exact Hm].
    rewrite lookup_insert_ne; [exact Hm|]. congruence.
  - intros q Hq Hs.
    assert (Hm : is_Some (mkdir_all ps m !! q) ->
                 mkdir_all ps m !! q = Some Dir /\ q ∈ ancestors d).
    { rewrite mkdir_all_lookup, Hq.
      destruct (decide (q ∈ ps)) as [Hin|Hin]; [auto|]. intros [? ?]. discriminate. }
    destruct leaf.
    + destruct (decide (q = d)) as [->|Hne].
      * rewrite lookup_insert_eq. auto.
      * rewrite lookup_insert_ne in Hs |- * by congruence.
        destruct (Hm Hs). auto.
    + destruct (Hm Hs). auto.
Qed.

(** X9.  Whatever its outcome, [configure_add] sets [self.datadir] to the
    configured option and leaves the configuration alone; it never
    removes or replaces anything that exists, and whatever it brings into
    existence is a directory: the configured data directory or one of
    its ancestors. *)
Theorem configure_add_preserves (E : Env) (self : Store) (w : world) :
  let '(_, (self', w')) := configure_add E (self, w) in
  datadir self' = filesystem_store_datadir (conf self)
  /\ conf self' = conf self
  /\ (forall q n, fs w !! q = Some n -> fs w' !! q = Some n)
  /\ (forall q, fs w !! q = None -> is_Some (fs w' !! q) ->
        fs w' !! q = Some Dir
        /\ exists d, filesystem_store_datadir (conf self) = Some d
                     /\ (q = d \/ q ∈ ancestors d)).
Proof.
  rewrite configure_add_unfold. cbv zeta.
  destruct (filesystem_store_datadir (conf self)) as [d|] eqn:Hd.
  2: { cbn. split; [reflexivity|]. split; [reflexivity|]. split; [auto|].
       intros q Hq [n Hn]. congruence. }
  destruct (fs w !! d) as [n|] eqn:Hl.
  { cbn. split; [reflexivity|]. split; [reflexivity|]. split; [auto|].
    intros q Hq [n' Hn]. congruence. }
  assert (Hall : forall q, q ∈ ancestors d -> q ∈ ancestors d) by auto.
  assert (Htake : forall k q, q ∈ take k (ancestors d) -> q ∈ ancestors d).
  { intros k q H. apply elem_of_take in H as (i & H & _).
    now apply list_elem_of_lookup_2 in H. }
  destruct (makedirs_outcome E (fs w) d) as [|en [|]]; cbn.
  - destruct (makedirs_fs (ancestors d) d (fs w) true Hall Hl) as [H1 H2].
    split; [reflexivity|]. split; [reflexivity|]. split; [exact H1|].
    intros q Hq Hs. destruct (H2 q Hq Hs). eauto.
  - destruct (makedirs_fs _ d (fs w) true (Htake (makedirs_progress E (fs w) d)) Hl)
      as [H1 H2].
    split; [reflexivity|]. split; [reflexivity|]. split; [exact H1|].
    intros q Hq Hs. destruct (H2 q Hq Hs). eauto.
  - destruct (makedirs_fs _ d (fs w) false (Htake (makedirs_progress E (fs w) d)) Hl)
      as [H1 H2].
    split; [reflexivity|]. split; [reflexivity|]. split; [exact H1|].
    intros q Hq Hs. destruct (H2 q Hq Hs). eauto.
Qed.

(** A data directory two levels down: both levels are created. *)
Example configure_add_creates_parents :
  let self := {| conf := {| filesystem_store_datadir := Some "/data/a/b";
                            filesystem_store_metadata_file := None |};
                 datadir := None |} in
  let '(r, (self', w')) := configure_add Demo.quiet (self, Demo.w0) in
  r = inr tt
  /\ datadir self' = Some "/data/a/b"
  /\ fs w' !! "/data/a" = Some Dir
  /\ fs w' !! "/data/a/b" = Some Dir
  /\ fs w' !! "/etc/md.json" = fs Demo.w0 !! "/etc/md.json".
Proof. vm_compute. repeat split. Qed.

(** ** What [add] can do to the filesystem *)

Lemma for_each_cons {A} (buf : bytes) (chunks : list bytes) (end_exn : option exn)
    (body : bytes -> A -> M world A) (a : A) (w : world) :
  for_each (buf :: chunks) end_exn body a w =
    match body buf a w with
    | (inl e, w') => (inl e, w')
    | (inr a', w') => for_each chunks end_exn body a' w'
    end.
Proof. reflexivity. Qed.

Lemma add_chunk_unfold (E : Env) (p : string) (buf : bytes) (bw : Z) (ck : md5)
    (w : world) :
  add_chunk E p buf (bw, ck) w =
    match file_write E p buf w with
    | (inl e, w') => (inl e, w')
    | (inr _, w') => (inr (bw + Z.of_nat (length buf), md5_update ck buf), w')
    end.
Proof. reflexivity. Qed.

(** However the loop of [add] ends, the file holds what it held plus a
    prefix of the chunks, and nothing is logged. *)
Lemma for_each_add_chunk_any (E : Env) (p : string) (chunks : list bytes)
    (end_exn : option exn) :
  forall (acc : Z * md5) (w : world) (c0 : bytes),
    fs w !! p = Some (File c0) ->
    exists x rest,
      fs (for_each chunks end_exn (add_chunk E p) acc w).2 = <[p := File (c0 ++ x)]> (fs w)
      /\ concat chunks = (x ++ rest)%list
      /\ log (for_each chunks end_exn (add_chunk E p) acc w).2 = log w.
Proof.
  induction chunks as [|buf chunks IH]; intros [bw ck] w c0 Hl.
  - exists [], []. cbn. rewrite app_nil_r, insert_id by assumption.
    destruct end_exn; auto.
  - rewrite for_each_cons, add_chunk_unfold. unfold file_write. rewrite Hl.
    destruct (write_fault E (fs w) p buf) as [[en k]|].
    + exists (take k buf), (drop k buf ++ concat chunks)%list. cbn.
      rewrite app_assoc, take_drop. auto.
    + cbn [ret].
      edestruct (IH (bw + Z.of_nat (length buf), md5_update ck buf)
                   (set_fs (insert p (File (c0 ++ buf))) w) (c0 ++ buf)%list)
        as (x & rest & H1 & H2 & H3); [cbn; apply lookup_insert_eq|].
      exists (buf ++ x)%list, rest. cbn [concat]. rewrite H1, H2, H3. cbn.
      rewrite insert_insert_eq, !app_assoc. auto.
Qed.

Lemma chunkreadable_prefix (image_file : filelike) (n : nat) :
  (0 < n)%nat ->
  exists rest, data image_file = (concat (yields (chunkreadable image_file n)) ++ rest)%list.
Proof.
  intros Hn. unfold chunkreadable.
  destruct (read_chunks_split (S (length (data image_file))) n image_file Hn
              (Nat.lt_succ_diag_r _)) as (H & _).
  eauto.
Qed.

(** The [try] block of [add]: either the open failed and nothing moved,
    or the target holds a prefix of the input. *)
Lemma add_write_any (E : Env) (p : string) (image_file : filelike) (w : world) :
  fs w !! p = None ->
  log (add_write E p image_file w).2 = log w
  /\ ((exists en, add_write E p image_file w = (inl (IOError (Some en)), w)
                  /\ open_write_fault E (fs w) p = Some en)
      \/ (open_write_fault E (fs w) p = None
          /\ exists x rest,
               fs (add_write E p image_file w).2 = <[p := File x]> (fs w)
               /\ data image_file = (x ++ rest)%list)).
Proof.
  intros Hl. unfold add_write. unfold bind at 1 2 3. unfold open_wb. rewrite Hl.
  destruct (open_write_fault E (fs w) p) as [en|].
  - split; [reflexivity|]. left. eauto.
  - destruct (for_each_add_chunk_any E p
                (yields (chunkreadable image_file CHUNKSIZE))
                (raised (chunkreadable image_file CHUNKSIZE))
                (0, hashlib_md5) (set_fs (insert p (File [])) w) [])
      as (x & rest & H1 & H2 & H3); [cbn; apply lookup_insert_eq|].
    destruct (chunkreadable_prefix image_file CHUNKSIZE CHUNKSIZE_pos) as [rest' Hd].
    split; [exact H3|]. right. split; [reflexivity|].
    exists x, (rest ++ rest')%list. rewrite H1. cbn.
    rewrite insert_insert_eq, Hd, H2, app_assoc. auto.
Qed.

(** [_delete_partial] either removes the path or leaves the filesystem
    alone. *)
Lemma delete_partial_any (E : Env) (p iid : string) (w : world) :
  (exists c, fs w !! p = Some (File c) /\ unlink_fault E (fs w) p = None
             /\ _delete_partial E p iid w = (inr tt, set_fs (delete p) w))
  \/ (fs (_delete_partial E p iid w).2 = fs w
      /\ ~ (exists c, fs w !! p = Some (File c) /\ unlink_fault E (fs w) p = None)).
Proof.
  unfold _delete_partial, try_except, os_unlink.
  destruct (fs w !! p) as [[c|]|] eqn:Hl.
  - destruct (unlink_fault E (fs w) p) eqn:Hu.
    + right. split; [reflexivity|]. intros (c' & _ & H). discriminate.
    + left. eauto.
  - right. split; [reflexivity|]. intros (c' & H & _). discriminate.
  - right. split; [reflexivity|]. intros (c' & H & _). discriminate.
Qed.

(** The exception the handlers of [add] raise for [e]. *)
Lemma add_handlers_exn (E : Env) (p iid : string) (e : exn) (w : world) :
  (add_handlers E p iid e w).1 =
    inl (match e with IOError en => errors_get en e | _ => e end).
Proof.
  unfold add_handlers.
  destruct e as [en| | | | | | | | | | |];
    try (destruct (delete_partial_returns E p iid w) as [w' H];
         rewrite (bind_return _ _ _ _ _ H); reflexivity).
  destruct (negb (bool_decide (en = Some errno.EACCES))).
  - destruct (delete_partial_returns E p iid w) as [w' H].
    rewrite (bind_return _ _ _ _ _ H). reflexivity.
  - reflexivity.
Qed.

(** The world after the handlers of [add]. *)
Lemma add_handlers_world (E : Env) (p iid : string) (e : exn) (w : world) :
  (e = IOError (Some errno.EACCES) -> (add_handlers E p iid e w).2 = w)
  /\ (e <> IOError (Some errno.EACCES) ->
      (add_handlers E p iid e w).2 = (_delete_partial E p iid w).2).
Proof.
  split.
  - intros ->. reflexivity.
  - intros Hne. unfold add_handlers.
    destruct (delete_partial_returns E p iid w) as [w' H].
    destruct e as [en| | | | | | | | | | |];
      try (rewrite (bind_return _ _ _ _ _ H), H; reflexivity).
    rewrite bool_decide_eq_false_2 by congruence. cbn [negb].
    rewrite (bind_return _ _ _ _ _ H), H. reflexivity.
Qed.

(** [add] on a target path that names something already. *)
Lemma add_at_existing (E : Env) (self : Store) (image_id : string)
    (image_file : filelike) (image_size : Z) (w : world) (p : string) (n : node) :
  os_path_join (datadir self) image_id = inr p ->
  fs w !! p = Some n ->
  add E self image_id image_file image_size w = (inl (Duplicate p), w).
Proof.
  intros Hj Hl. rewrite (add_unfold E self image_id image_file image_size w p Hj).
  now rewrite Hl.
Qed.

Lemma exn_eacces_cases (e : exn) :
  e = IOError (Some errno.EACCES) \/ e <> IOError (Some errno.EACCES).
Proof.
  destruct e as [[en|]| | | | | | | | | | |]; try (right; discriminate).
  destruct (decide (en = errno.EACCES)) as [->|Hne]; [left; reflexivity|].
  right. congruence.
Qed.

(** An [add] that raises past the duplicate check raises from its
    handlers. *)
Lemma add_raise_inv (E : Env) (self : Store) (image_id : string)
    (image_file : filelike) (image_size : Z) (w : world) (p : string)
    (e' : exn) (w' : world) :
  os_path_join (datadir self) image_id = inr p ->
  fs w !! p = None ->
  add E self image_id image_file image_size w = (inl e', w') ->
  exists e w1,
    add_write E p image_file w = (inl e, w1)
    /\ add_handlers E p image_id e w1 = (inl e', w').
Proof.
  intros Hj Hl H.
  rewrite (add_unfold E self image_id image_file image_size w p Hj), Hl in H.
  unfold bind at 1 in H. unfold try_except in H.
  destruct (add_write E p image_file w) as [[e|[bw ck]] w1] eqn:Hw.
  - destruct (add_handlers E p image_id e w1) as [[e2|[bw ck]] w2] eqn:Hh.
    + injection H as <- <-. eauto.
    + destruct (add_handlers_raise E p image_id e w1) as (e3 & w3 & H3). congruence.
  - destruct (get_metadata_returns E self w1) as (m & w2 & Hm & _).
    unfold bind at 1 in H. rewrite Hm in H. discriminate.
Qed.

(** After [add], whatever its outcome, the filesystem is the one before,
    possibly with a prefix of the input at the target path. *)
Lemma add_fs_cases (E : Env) (self : Store) (image_id : string)
    (image_file : filelike) (image_size : Z) (w : world) (p : string) :
  os_path_join (datadir self) image_id = inr p ->
  fs w !! p = None ->
  fs (add E self image_id image_file image_size w).2 = fs w
  \/ exists x rest,
       fs (add E self image_id image_file image_size w).2 = <[p := File x]> (fs w)
       /\ data image_file = (x ++ rest)%list.
Proof.
  intros Hj Hl.
  destruct (add E self image_id image_file image_size w) as [[e'|r] w'] eqn:Ha.
  - apply (add_raise_inv E self image_id image_file image_size w p) in Ha
      as (e & w1 & Hw & Hh); [|assumption..].
    destruct (add_write_any E p image_file w Hl) as (_ & Hcase).
    rewrite Hw in Hcase. cbn [snd] in *.
    assert (Hw' : fs w' = fs w1 \/ (exists c, fs w1 !! p = Some (File c))
                                   /\ fs w' = delete p (fs w1)).
    { destruct (add_handlers_world E p image_id e w1) as [H1 H2].
      rewrite Hh in H1, H2. cbn [snd] in *.
      destruct (exn_eacces_cases e) as [He|He].
      - left. now rewrite (H1 He).
      - rewrite (H2 He).
        destruct (delete_partial_any E p image_id w1) as [(c & Hc & _ & Hd)|[Hd _]].
        + right. rewrite Hd. eauto.
        + left. exact Hd. }
    destruct Hcase as [(en & [= _ <-] & _)|(_ & x & rest & Hx & Hd)].
    + left. destruct Hw' as [->|[(c & Hc) _]]; [reflexivity|congruence].
    + destruct Hw' as [->|[_ ->]].
      * right. eauto.
      * left. rewrite Hx, delete_insert_eq. now apply delete_id.
  - apply add_ok_inv in Ha as (p' & w1 & m & Hj' & _ & Hfs & _ & _ & Hfs' & _).
    assert (p' = p) as -> by congruence.
    right. exists (data image_file), []. cbn. rewrite app_nil_r. split; congruence.
Qed.

(** [add] leaves every path but its target alone. *)
Lemma add_other_paths (E : Env) (self : Store) (image_id : string)
    (image_file : filelike) (image_size : Z) (w : world) (p q : string) :
  os_path_join (datadir self) image_id = inr p ->
  q <> p ->
  fs (add E self image_id image_file image_size w).2 !! q = fs w !! q.
Proof.
  intros Hj Hq. destruct (fs w !! p) as [n0|] eqn:Hl.
  - now rewrite (add_at_existing E self image_id image_file image_size w p n0 Hj Hl).
  - destruct (add_fs_cases E self image_id image_file image_size w p Hj Hl)
      as [->|(x & rest & -> & _)]; [reflexivity|].
    now apply lookup_insert_ne.
Qed.

(** X10.  Whatever its outcome, [add] touches no path but its target;
    and if the target did not exist before, whatever is there afterwards
    is a regular file holding a prefix of the input. *)
Theorem add_touches_only_target (E : Env) (self : Store) (image_id : string)
    (image_file : filelike) (image_size : Z) (w : world) (p : string) :
  os_path_join (datadir self) image_id = inr p ->
  (forall q, q <> p ->
     fs (add E self image_id image_file image_size w).2 !! q = fs w !! q)
  /\ (fs w !! p = None ->
      forall n, fs (add E self image_id image_file image_size w).2 !! p = Some n ->
      exists c rest, n = File c /\ data image_file = (c ++ rest)%list).
Proof.
  intros Hj. destruct (fs w !! p) as [n0|] eqn:Hl.
  - rewrite (add_at_existing E self image_id image_file image_size w p n0 Hj Hl).
    split; [reflexivity|discriminate].
  - destruct (add_fs_cases E self image_id image_file image_size w p Hj Hl)
      as [->|(x & rest & -> & Hd)].
    + split; [reflexivity|]. intros _ n Hn. congruence.
    + split.
      * intros q Hq. now apply lookup_insert_ne.
      * intros _ n. rewrite lookup_insert_eq. intros [= <-]. eauto.
Qed.

Lemma add_touches_only_target_witness :
  (forall q, q <> "/data/img" ->
     fs (add Demo.quiet Demo.store "img" (Demo.broken (IOError (Some errno.EACCES))) 10
           Demo.w0).2 !! q = fs Demo.w0 !! q)
  /\ (fs Demo.w0 !! "/data/img" = None ->
      forall n,
        fs (add Demo.quiet Demo.store "img" (Demo.broken (IOError (Some errno.EACCES))) 10
              Demo.w0).2 !! "/data/img" = Some n ->
        exists c rest,
          n = File c
          /\ data (Demo.broken (IOError (Some errno.EACCES))) = (c ++ rest)%list).
Proof.
  refine (add_touches_only_target Demo.quiet Demo.store "img"
            (Demo.broken (IOError (Some errno.EACCES))) 10 Demo.w0 "/data/img" _).
  reflexivity.
Defined.

(** X11.  When the system never refuses an [unlink], an [add] that
    raises anything but [StorageWriteDenied] leaves the filesystem
    exactly as it found it: no partial file stays behind. *)
Theorem add_failure_leaves_no_trace (E : Env) (self : Store) (image_id : string)
    (image_file : filelike) (image_size : Z) (w : world) (e' : exn) (w' : world) :
  (forall m q, unlink_fault E m q = None) ->
  add E self image_id image_file image_size w = (inl e', w') ->
  e' <> StorageWriteDenied ->
  fs w' = fs w.
Proof.
  intros Hu Ha Hne.
  destruct (os_path_join (datadir self) image_id) as [ej|p] eqn:Hj.
  { unfold add in Ha. unfold bind at 1 in Ha. rewrite Hj in Ha.
    now injection Ha as _ <-. }
  destruct (fs w !! p) as [n0|] eqn:Hl.
  { rewrite (add_at_existing E self image_id image_file image_size w p n0 Hj Hl) in Ha.
    now injection Ha as _ <-. }
  apply (add_raise_inv E self image_id image_file image_size w p) in Ha
    as (e & w1 & Hw & Hh); [|assumption..].
  pose proof (add_handlers_exn E p image_id e w1) as Hexn.
  destruct (add_handlers_world E p image_id e w1) as [_ H2].
  rewrite Hh in Hexn, H2. cbn [fst snd] in *. injection Hexn as ->.
  assert (He : e <> IOError (Some errno.EACCES)).
  { intros ->. apply Hne. reflexivity. }
  rewrite (H2 He).
  destruct (add_write_any E p image_file w Hl) as (_ & Hcase).
  rewrite Hw in Hcase. cbn [snd] in Hcase.
  destruct (delete_partial_any E p image_id w1) as [(c & Hc & _ & Hd)|[Hd Hno]].
  - rewrite Hd. cbn.
    destruct Hcase as [(en & [= _ <-] & _)|(_ & x & rest & Hx & _)]; [congruence|].
    rewrite Hx, delete_insert_eq. now apply delete_id.
  - rewrite Hd.
    destruct Hcase as [(en & [= _ <-] & _)|(_ & x & rest & Hx & _)]; [reflexivity|].
    exfalso. apply Hno. exists x. split; [|apply Hu].
    rewrite Hx. apply lookup_insert_eq.
Qed.

Lemma add_failure_leaves_no_trace_witness :
  fs (add (Demo.env None None (Some (errno.ENOSPC, 3%nat)) None MkCreated)
        Demo.store "img" (Demo.whole "hello") 5 Demo.w0).2 = fs Demo.w0.
Proof.
  refine (add_failure_leaves_no_trace
            (Demo.env None None (Some (errno.ENOSPC, 3%nat)) None MkCreated)
            Demo.store "img" (Demo.whole "hello") 5 Demo.w0 StorageFull _ _ _ _).
  - intros m q. reflexivity.
  - vm_compute. reflexivity.
  - discriminate.
Defined.

(** X12.  When the target cannot even be opened for writing, nothing is
    created.  With [EACCES], [add] raises [StorageWriteDenied] and the
    world is untouched.  With any other [errno], [add] still attempts the
    cleanup: the [unlink] of the file that was never created fails (with
    [ENOENT], unless the system reports another [errno] for that path),
    the failure is logged and nothing else changes, and [add] raises
    [StorageFull] for [ENOSPC] and [EFBIG] and the [IOError] itself
    otherwise. *)
Theorem add_open_failure (E : Env) (self : Store) (image_id : string)
    (image_file : filelike) (image_size : Z) (w : world) (p : string) (en : Z) :
  os_path_join (datadir self) image_id = inr p ->
  fs w !! p = None ->
  open_write_fault E (fs w) p = Some en ->
  (en = errno.EACCES ->
   add E self image_id image_file image_size w = (inl StorageWriteDenied, w))
  /\ (en <> errno.EACCES ->
      exists e' en',
        add E self image_id image_file image_size w =
          (inl e',
           add_log (LogEntry ERROR "Unable to remove partial image data for image %s: %s"
                      [AStr image_id; AExn (OSError (Some en'))]) w)
        /\ (unlink_fault E (fs w) p = None -> en' = errno.ENOENT)
        /\ (en = errno.ENOSPC \/ en = errno.EFBIG -> e' = StorageFull)
        /\ (en <> errno.ENOSPC -> en <> errno.EFBIG -> e' = IOError (Some en))).
Proof.
  intros Hj Hl Ho.
  assert (Hw : add_write E p image_file w = (inl (IOError (Some en)), w)).
  { unfold add_write. apply bind_raise. unfold open_wb. now rewrite Hl, Ho. }
  split.
  - intros ->.
    apply (add_failed_write E self image_id image_file image_size w p
             (IOError (Some errno.EACCES)) w); auto.
  - intros Hne. eexists _, _. split; [|split; [|split]].
    + apply (add_failed_write E self image_id image_file image_size w p
               (IOError (Some en)) w); auto.
      unfold add_handlers. rewrite bool_decide_eq_false_2 by congruence. cbn [negb].
      unfold bind, _delete_partial, try_except, os_unlink. rewrite Hl. reflexivity.
    + intros ->. reflexivity.
    + intros [-> | ->]; reflexivity.
    + intros H1 H2. now apply errors_get_other.
Qed.

(** The target lies under a regular file: the open fails with
    [ENOTDIR] (20), and so does the [unlink] of the cleanup, which is
    what the log records. *)
Example add_open_failure_not_a_directory :
  add (Demo.env None (Some 20) None (Some 20) MkCreated)
      Demo.store "img/sub" (Demo.whole "hello") 5 Demo.w1 =
    (inl (IOError (Some 20)),
     add_log (LogEntry ERROR "Unable to remove partial image data for image %s: %s"
                [AStr "img/sub"; AExn (OSError (Some 20))]) Demo.w1).
Proof. vm_compute. reflexivity. Qed.

Lemma add_open_failure_witness :
  add (Demo.env None (Some errno.EACCES) None None MkCreated)
      Demo.store "img" (Demo.whole "hello") 5 Demo.w0 =
    (inl StorageWriteDenied, Demo.w0).
Proof.
  refine (proj1 (add_open_failure (Demo.env None (Some errno.EACCES) None None MkCreated)
                   Demo.store "img" (Demo.whole "hello") 5 Demo.w0 "/data/img"
                   errno.EACCES _ _ _) eq_refl).
  - reflexivity.
  - vm_compute. reflexivity.
  - reflexivity.
Defined.

(** X13.  [add] never lets an [IOError] carrying [EACCES], [ENOSPC] or
    [EFBIG] through: whatever raised it, the caller sees
    [StorageWriteDenied] or [StorageFull] instead. *)
Theorem add_maps_errno (E : Env) (self : Store) (image_id : string)
    (image_file : filelike) (image_size : Z) (w : world) (en : Z) (w' : world) :
  add E self image_id image_file image_size w = (inl (IOError (Some en)), w') ->
  en <> errno.EACCES /\ en <> errno.ENOSPC /\ en <> errno.EFBIG.
Proof.
  intros Ha.
  destruct (os_path_join (datadir self) image_id) as [ej|p] eqn:Hj.
  { unfold add in Ha. unfold bind at 1 in Ha. rewrite Hj in Ha.
    unfold os_path_join in Hj. destruct (str_startswith "/" image_id); [discriminate|].
    destruct (datadir self) as [a|]; [|congruence].
    destruct (_ || _); discriminate. }
  destruct (fs w !! p) as [n0|] eqn:Hl.
  { rewrite (add_at_existing E self image_id image_file image_size w p n0 Hj Hl) in Ha.
    discriminate. }
  destruct (add_raise_inv E self image_id image_file image_size w p _ _ Hj Hl Ha)
    as (e & w1 & Hw & Hh).
  pose proof (add_handlers_exn E p image_id e w1) as Hexn.
  rewrite Hh in Hexn. cbn [fst] in Hexn. injection Hexn as Hexn.
  destruct e as [[en0|]| | | | | | | | | | |]; try discriminate.
  unfold errors_get, errors in Hexn.
  destruct (decide (en0 = errno.EFBIG)) as [->|H1];
    [rewrite lookup_insert_eq in Hexn; discriminate|].
  rewrite lookup_insert_ne in Hexn by congruence.
  destruct (decide (en0 = errno.ENOSPC)) as [->|H2];
    [rewrite lookup_insert_eq in Hexn; discriminate|].
  rewrite lookup_insert_ne in Hexn by congruence.
  destruct (decide (en0 = errno.EACCES)) as [->|H3];
    [rewrite lookup_insert_eq in Hexn; discriminate|].
  rewrite lookup_insert_ne, lookup_empty in Hexn by congruence.
  cbn in Hexn. injection Hexn as <-. auto.
Qed.

Lemma add_maps_errno_witness :
  (5 <> errno.EACCES /\ 5 <> errno.ENOSPC /\ 5 <> errno.EFBIG).
Proof.
  refine (add_maps_errno (Demo.env None None (Some (5, 0%nat)) None MkCreated)
            Demo.store "img" (Demo.whole "hello") 5 Demo.w0 5
            (add (Demo.env None None (Some (5, 0%nat)) None MkCreated)
               Demo.store "img" (Demo.whole "hello") 5 Demo.w0).2 _).
  vm_compute. reflexivity.
Defined.

(** X14.  [delete] undoes [add]: after an [add] that returned, deleting
    the object at the target path (when the system allows the [unlink])
    returns and gives back the filesystem there was before the [add]. *)
Theorem delete_undoes_add (E : Env) (self : Store) (image_id : string)
    (image_file : filelike) (image_size : Z) (w : world)
    (r : list pyval) (w1 : world) (p : string) :
  os_path_join (datadir self) image_id = inr p ->
  add E self image_id image_file image_size w = (inr r, w1) ->
  unlink_fault E (fs w1) p = None ->
  exists w2,
    Store_delete E self (location_of p) w1 = (inr tt, w2)
    /\ fs w2 = fs w.
Proof.
  intros Hj Ha Hu.
  apply add_ok_inv in Ha as (p' & w0 & m & Hj' & Hl & Hfs & _ & _ & Hfs' & _).
  assert (p' = p) as -> by congruence.
  assert (Hl1 : fs w1 !! p = Some (File (data image_file))).
  { rewrite Hfs', Hfs. apply lookup_insert_eq. }
  rewrite (delete_unfold E self (location_of p) p _ w1 (location_of_path p) Hl1), Hu.
  cbv zeta. eexists. split; [reflexivity|]. cbn.
  rewrite Hfs', Hfs, delete_insert_eq. now apply delete_id.
Qed.

Lemma delete_undoes_add_witness :
  exists w2,
    Store_delete Demo.quiet Demo.store (location_of "/data/img")
      (add Demo.quiet Demo.store "img" (Demo.whole "hello") 5 Demo.w0).2 = (inr tt, w2)
    /\ fs w2 = fs Demo.w0.
Proof.
  refine (delete_undoes_add Demo.quiet Demo.store "img" (Demo.whole "hello") 5 Demo.w0
            [VStr "file:///data/img"; VInt 5; VStr "68656c6c6f"; VMeta (JDict [])]
            _ "/data/img" _ _ _).
  - reflexivity.
  - vm_compute. reflexivity.
  - reflexivity.
Defined.

(** ** When nothing fails *)

Lemma for_each_add_chunk_no_fault (E : Env) (p : string) (chunks : list bytes) :
  (forall m buf, write_fault E m p buf = None) ->
  forall (bw : Z) (ck : md5) (w : world) (c0 : bytes),
    fs w !! p = Some (File c0) ->
    for_each chunks None (add_chunk E p) (bw, ck) w =
      (inr (bw + Z.of_nat (length (concat chunks)),
            {| fed := fed ck ++ concat chunks |}),
       set_fs (insert p (File (c0 ++ concat chunks))) w).
Proof.
  intros Hwf. induction chunks as [|buf chunks IH]; intros bw ck w c0 Hl.
  - cbn. rewrite !app_nil_r, Z.add_0_r. destruct ck as [fd]. cbn.
    f_equal. apply world_eq; [|reflexivity]. cbn. now rewrite insert_id.
  - rewrite for_each_cons, add_chunk_unfold.
    rewrite (file_write_ok E p buf c0 w Hl (Hwf _ _)).
    rewrite (IH _ _ _ (c0 ++ buf)%list) by (cbn; apply lookup_insert_eq).
    cbn. rewrite length_app, <- !app_assoc, Nat2Z.inj_add, Z.add_assoc.
    f_equal. apply world_eq; [|reflexivity]. cbn. now rewrite insert_insert_eq.
Qed.

(** X15.  [add] goes through when nothing stands in its way: if the
    target does not exist, the system lets the file be opened and
    written, and the stream never fails, then [add] returns, the target
    holds exactly the input, and nothing but the closing [DEBUG] entry
    and what the metadata loader logged is added to the log. *)
Theorem add_succeeds (E : Env) (self : Store) (image_id : string)
    (image_file : filelike) (image_size : Z) (w : world) (p : string) :
  os_path_join (datadir self) image_id = inr p ->
  fs w !! p = None ->
  open_write_fault E (fs w) p = None ->
  (forall m buf, write_fault E m p buf = None) ->
  fault image_file = None ->
  exists m w',
    add E self image_id image_file image_size w =
      (inr [VStr ("file://" +:+ p);
            VInt (Z.of_nat (length (data image_file)));
            VStr (md5_hexdigest E (data image_file));
            VMeta m], w')
    /\ fs w' = <[p := File (data image_file)]> (fs w).
Proof.
  intros Hj Hl Ho Hwf Hf.
  assert (Hr : raised (chunkreadable image_file CHUNKSIZE) = None).
  { unfold chunkreadable.
    destruct (read_chunks_split (S (length (data image_file))) CHUNKSIZE image_file
                CHUNKSIZE_pos (Nat.lt_succ_diag_r _)) as (_ & _ & H). auto. }
  pose proof (chunkreadable_whole image_file Hr) as Hc.
  assert (Hw : add_write E p image_file w =
               (inr (Z.of_nat (length (data image_file)), {| fed := data image_file |}),
                set_fs (insert p (File (data image_file))) w)).
  { unfold add_write. rewrite (bind_return _ _ _ _ _ (open_wb_ok E p w Hl Ho)), Hr.
    rewrite (for_each_add_chunk_no_fault E p _ Hwf _ _ _ []) by (cbn; apply lookup_insert_eq).
    rewrite Hc. cbn. f_equal. apply world_eq; [|reflexivity].
    cbn. now rewrite insert_insert_eq. }
  rewrite (add_unfold E self image_id image_file image_size w p Hj), Hl.
  rewrite (bind_return _ _ _ _ _ (try_except_return _ _ _ _ _ Hw)).
  destruct (get_metadata_returns E self (set_fs (insert p (File (data image_file))) w))
    as (m & w2 & Hm & Hfs).
  rewrite (bind_return _ _ _ _ _ Hm). cbn. eexists _, _. split; [reflexivity|].
  cbn. exact Hfs.
Qed.

Lemma add_succeeds_witness :
  exists m w',
    add Demo.quiet Demo.store_md "img" (Demo.whole "hello") 0 Demo.w0 =
      (inr [VStr ("file://" +:+ "/data/img");
            VInt (Z.of_nat (length (data (Demo.whole "hello"))));
            VStr (md5_hexdigest Demo.quiet (data (Demo.whole "hello")));
            VMeta m], w')
    /\ fs w' = <["/data/img" := File (data (Demo.whole "hello"))]> (fs Demo.w0).
Proof.
  refine (add_succeeds Demo.quiet Demo.store_md "img" (Demo.whole "hello") 0 Demo.w0
            "/data/img" _ _ _ _ _).
  - reflexivity.
  - vm_compute. reflexivity.
  - reflexivity.
  - intros m buf. reflexivity.
  - reflexivity.
Defined.

(** X16.  Stored images survive other calls of [add]: whatever a later
    [add] on a different target path does, a file stored before is still
    there with the same content, and [get] hands it out whole. *)
Theorem add_keeps_other_images (E : Env) (self : Store) (image_id : string)
    (image_file : filelike) (image_size : Z) (w : world) (p q : string) (c : bytes) :
  os_path_join (datadir self) image_id = inr p ->
  q <> p ->
  fs w !! q = Some (File c) ->
  let w' := (add E self image_id image_file image_size w).2 in
  fs w' !! q = Some (File c)
  /\ (open_read_fault E (fs w') q = None ->
      exists cf w'',
        get E self (location_of q) w' =
          (inr [VChunked cf; VInt (Z.of_nat (length c))], w'')
        /\ concat (yields (ChunkedFile_iter cf).1) = c).
Proof.
  intros Hj Hq Hl w'.
  assert (Hl' : fs w' !! q = Some (File c)).
  { unfold w'.
    rewrite (add_other_paths E self image_id image_file image_size w p q Hj Hq).
    exact Hl. }
  split; [exact Hl'|]. intros Ho.
  rewrite (get_at_file E self (location_of q) q c w' (location_of_path q) Hl'), Ho.
  destruct (ChunkedFile_iter_whole q c) as (_ & Hc & _).
  eexists _, _. split; [reflexivity|exact Hc].
Qed.

Lemma add_keeps_other_images_witness :
  fs (add Demo.quiet Demo.store "other" (Demo.whole "xyz") 3 Demo.w1).2 !! "/data/img" =
    Some (File (Demo.b "hello")).
Proof.
  refine (proj1 (add_keeps_other_images Demo.quiet Demo.store "other" (Demo.whole "xyz") 3
                   Demo.w1 "/data/other" "/data/img" (Demo.b "hello") _ _ _)).
  - reflexivity.
  - discriminate.
  - vm_compute. reflexivity.
Defined.

(** ** The parsed location *)

Lemma rstrip_idempotent (s : string) : rstrip (rstrip s) = rstrip s.
Proof.
  induction s as [|c s IH]; [reflexivity|]. cbn [rstrip].
  destruct (rstrip s) as [|a r] eqn:Hr.
  - destruct (isspace c) eqn:Hc; [reflexivity|]. cbn. now rewrite Hc.
  - cbn [rstrip]. cbn [rstrip] in IH. rewrite IH. reflexivity.
Qed.

Lemma lstrip_head (s : string) :
  lstrip s = "" \/ exists c s', lstrip s = String c s' /\ isspace c = false.
Proof.
  induction s as [|c s IH]; [left; reflexivity|]. cbn [lstrip].
  destruct (isspace c) eqn:Hc; [exact IH|]. right. eauto.
Qed.

Lemma rstrip_head (c : ascii) (s : string) :
  isspace c = false -> exists r, rstrip (String c s) = String c r.
Proof.
  intros Hc. cbn [rstrip]. destruct (rstrip s); [rewrite Hc|]; eauto.
Qed.

(** Trimming twice is trimming once. *)
Lemma strip_idempotent (s : string) : strip (strip s) = strip s.
Proof.
  unfold strip. destruct (lstrip_head s) as [->|(c & s' & -> & Hc)]; [reflexivity|].
  destruct (rstrip_head c s' Hc) as [r Hr].
  rewrite Hr at 1. rewrite lstrip_nonspace_first by exact Hc.
  rewrite <- Hr. apply rstrip_idempotent.
Qed.

(** X17.  A [parse_uri] that returns leaves a well-formed location: its
    scheme is one of [get_schemes], its path is set, non-empty and
    carries no blank at either end; and the world, log included, is as
    before. *)
Theorem parse_uri_location_invariant (E : Env) (uri : string)
    (self : StoreLocation) (w : world) (self' : StoreLocation) (w' : world) :
  parse_uri E uri (self, w) = (inr tt, (self', w')) ->
  In (scheme self') get_schemes
  /\ (exists p, path self' = Some p /\ p <> "" /\ strip p = p)
  /\ w' = w.
Proof.
  intros H.
  destruct (urlparse E uri) as [e|pieces] eqn:Hu.
  { unfold parse_uri, bind in H. rewrite Hu in H. discriminate. }
  rewrite (parse_uri_unfold E uri pieces self w Hu) in H.
  destruct (str_in (pr_scheme pieces) ["file"; "filesystem"]) eqn:Hs; [|discriminate].
  cbn [negb] in H.
  destruct (String.eqb_spec (strip (pr_netloc pieces +:+ pr_path pieces)) "") as [He|Hne];
    [discriminate|].
  injection H as <- <-. split; [|split; [|reflexivity]].
  - cbn. apply str_in_schemes in Hs as [->| ->]; auto.
  - eexists. split; [reflexivity|]. split; [exact Hne|]. apply strip_idempotent.
Qed.

Lemma parse_uri_location_invariant_witness :
  In (scheme {| scheme := "filesystem"; path := Some "/tmp/img" |}) get_schemes
  /\ (exists p, path {| scheme := "filesystem"; path := Some "/tmp/img" |} = Some p
                /\ p <> "" /\ strip p = p)
  /\ Demo.w0 = Demo.w0.
Proof.
  refine (parse_uri_location_invariant Demo.quiet "filesystem:///tmp/img "
            (process_specs ∅) Demo.w0 _ _ _).
  vm_compute. reflexivity.
Defined.
